(** * openai-image-api: the networked job-orchestration core

    A shallow embedding of the three pieces of the client that carry logic:
    the SSRF validator ([isBlockedIP], [validateImageUrl]), the request
    dispatcher of [OpenAIVideoAPI] (pacing, credential redaction, error
    classification) and the polling loop [pollVideoWithProgress]; and of
    what stands around them: the methods of the class with the parameter
    validator they call, the file checks and the file names of utils, the
    key format of config.

    JavaScript strings are modelled as [string] (one [ascii] per code unit),
    numbers that hold milliseconds or HTTP statuses as [Z]; where the source
    divides and multiplies them, as doubles. *)

From Stdlib Require Import ZArith List Bool Ascii String Lia.
From Stdlib Require Import Numbers.DecimalString.
From Stdlib Require Numbers.HexadecimalString.
From Stdlib Require Floats.PrimFloat Floats.SpecFloat Floats.FloatOps.
From Stdlib Require Numbers.Cyclic.Int63.Uint63.
Import ListNotations.

Open Scope string_scope.

(* ------------------------------------------------------------------ *)
(** ** The string primitives the sources call *)

Module JsString.

(** [String.prototype.startsWith(p)]. *)
Definition startsWith (s p : string) : bool := String.prefix p s.

Definition lowerChar (c : ascii) : ascii :=
  let n := nat_of_ascii c in
  if (65 <=? n)%nat && (n <=? 90)%nat then ascii_of_nat (n + 32) else c.

(** [String.prototype.toLowerCase()] on code units below 128, where it
    changes [A-Z] and keeps the length. Other units are left as they are:
    the source's function changes some of them and can lengthen a text, and
    nothing below rests on what it does there. *)
Fixpoint toLowerCase (s : string) : string :=
  match s with
  | EmptyString => EmptyString
  | String c t => String (lowerChar c) (toLowerCase t)
  end.

Definition upperChar (c : ascii) : ascii :=
  let n := nat_of_ascii c in
  if (97 <=? n)%nat && (n <=? 122)%nat then ascii_of_nat (n - 32) else c.

(** [String.prototype.toUpperCase()] on code units below 128. *)
Fixpoint toUpperCase (s : string) : string :=
  match s with
  | EmptyString => EmptyString
  | String c t => String (upperChar c) (toUpperCase t)
  end.

(** [s.substring(n)] for [0 <= n]: the string without its first [n] units. *)
Fixpoint substring_from (n : nat) (s : string) : string :=
  match n, s with
  | O, _ => s
  | S _, EmptyString => EmptyString
  | S k, String _ t => substring_from k t
  end.

(** [s.slice(-n)]: the last [n] code units, the whole string if shorter. *)
Definition slice_last (n : nat) (s : string) : string :=
  substring_from (String.length s - n) s.

(** [s.includes(p)]. *)
Fixpoint includes (s p : string) : bool :=
  String.prefix p s ||
  match s with
  | EmptyString => false
  | String _ t => includes t p
  end.

(** [xs.includes(s)] on an array of strings. *)
Definition array_includes (xs : list string) (s : string) : bool :=
  existsb (String.eqb s) xs.

(** The first alternative of [/^\[|\]$/g]: an opening bracket at offset 0. *)
Definition strip_open (s : string) : string :=
  match s with
  | String "[" t => t
  | _ => s
  end.

(** The second alternative of [/^\[|\]$/g]: a closing bracket at the end. *)
Fixpoint strip_close (s : string) : string :=
  match s with
  | EmptyString => EmptyString
  | String c EmptyString => if Ascii.eqb c "]" then EmptyString else s
  | String c t => String c (strip_close t)
  end.

(** [s.replace(/^\[|\]$/g, '')]. The two matches cannot overlap: the scan
    takes the opening bracket first and goes on from offset 1. *)
Definition stripBrackets (s : string) : string := strip_close (strip_open s).

(** Template-literal rendering of an integer. *)
Definition ofZ (z : Z) : string := NilZero.string_of_int (Z.to_int z).

Definition ofN (n : N) : string := NilZero.string_of_uint (N.to_uint n).

End JsString.

(* ------------------------------------------------------------------ *)
(** ** Regular expressions, anchored at the start of the input

    Every pattern of [blockedPatterns] begins with [^]; [run r s] lists the
    remainders of [s] after each way [r] can match a prefix of it. *)

Module Regex.

Inductive regex : Type :=
| Chr (c : ascii)
| Range (lo hi : ascii)
| Seq (r1 r2 : regex)
| Alt (r1 r2 : regex)
| Eps
| Eos.

Definition in_range (lo hi c : ascii) : bool :=
  (nat_of_ascii lo <=? nat_of_ascii c)%nat && (nat_of_ascii c <=? nat_of_ascii hi)%nat.

Fixpoint run (r : regex) (s : string) : list string :=
  match r with
  | Chr c =>
      match s with
      | String a t => if Ascii.eqb a c then [t] else []
      | EmptyString => []
      end
  | Range lo hi =>
      match s with
      | String a t => if in_range lo hi a then [t] else []
      | EmptyString => []
      end
  | Seq r1 r2 => flat_map (run r2) (run r1 s)
  | Alt r1 r2 => run r1 s ++ run r2 s
  | Eps => [s]
  | Eos =>
      match s with
      | EmptyString => [EmptyString]
      | String _ _ => []
      end
  end.

(** [/^r/.test(s)]. *)
Definition test (r : regex) (s : string) : bool :=
  match run r s with
  | [] => false
  | _ :: _ => true
  end.

(** A literal run of characters followed by [k]. *)
Fixpoint lit (p : string) (k : regex) : regex :=
  match p with
  | EmptyString => k
  | String c t => Seq (Chr c) (lit t k)
  end.

End Regex.

(* ------------------------------------------------------------------ *)
(** ** The blocked-address predicate, legacy JavaScript copy (utils.js) *)

Module UtilsJs.
Import JsString Regex.

Definition blockedHosts : list string :=
  ["metadata.google.internal"; "metadata"; "169.254.169.254"].

Definition blockedPatterns : list regex :=
  [ lit "127." Eps                       (* /^127\./     Loopback *)
  ; lit "10." Eps                        (* /^10\./      Private Class A *)
  ; lit "172."                           (* /^172\.(1[6-9]|2[0-9]|3[0-1])\./ *)
      (Seq (Alt (Seq (Chr "1") (Range "6" "9"))
           (Alt (Seq (Chr "2") (Range "0" "9"))
                (Seq (Chr "3") (Range "0" "1"))))
           (Chr "."))
  ; lit "192.168." Eps                   (* /^192\.168\./ Private Class C *)
  ; lit "169.254." Eps                   (* /^169\.254\./ Link-local *)
  ; lit "0." Eps                         (* /^0\./       Invalid range *)
  ; lit "::1" Eos                        (* /^::1$/      IPv6 loopback *)
  ; lit "fe80:" Eps                      (* /^fe80:/     IPv6 link-local *)
  ; lit "fc00:" Eps                      (* /^fc00:/     IPv6 unique local *)
  ; lit "fd00:" Eps                      (* /^fd00:/     IPv6 unique local *)
  ].

Definition isBlockedIP (ip : string) : bool :=
  let cleanIP := stripBrackets ip in
  if (cleanIP =? "localhost") || (cleanIP =? "127.0.0.1") || (cleanIP =? "::1")
  then true
  else if array_includes blockedHosts cleanIP then true
  else existsb (fun pattern => test pattern cleanIP) blockedPatterns.

End UtilsJs.

(* ------------------------------------------------------------------ *)
(** ** The blocked-address predicate, TypeScript copy (src/utils.ts) *)

Module UtilsTs.
Import JsString Regex.

Definition blockedHosts : list string :=
  ["metadata.google.internal"; "metadata"; "169.254.169.254"].

Definition blockedPatterns : list regex :=
  [ lit "127." Eps
  ; lit "10." Eps
  ; lit "172."
      (Seq (Alt (Seq (Chr "1") (Range "6" "9"))
           (Alt (Seq (Chr "2") (Range "0" "9"))
                (Seq (Chr "3") (Range "0" "1"))))
           (Chr "."))
  ; lit "192.168." Eps
  ; lit "169.254." Eps
  ; lit "0." Eps
  ; lit "::1" Eos
  ; lit "fe80:" Eps
  ; lit "fc00:" Eps
  ; lit "fd00:" Eps
  ].

(** The function calls itself on [cleanIP.substring(7)], a strictly shorter
    string; [fuel] bounds the depth of that recursion. *)
Fixpoint isBlockedIP_fuel (fuel : nat) (ip : string) : bool :=
  match fuel with
  | O => false
  | S fuel' =>
      let cleanIP := stripBrackets ip in
      if startsWith (toLowerCase cleanIP) "::ffff:" then
        let mappedIPv4 := substring_from 7 cleanIP in
        isBlockedIP_fuel fuel' mappedIPv4
      else if (cleanIP =? "localhost") || (cleanIP =? "127.0.0.1") || (cleanIP =? "::1")
      then true
      else if array_includes blockedHosts cleanIP then true
      else existsb (fun pattern => test pattern cleanIP) blockedPatterns
  end.

Definition isBlockedIP (ip : string) : bool :=
  isBlockedIP_fuel (S (String.length ip)) ip.

End UtilsTs.

(* ------------------------------------------------------------------ *)
(** ** [validateImageUrl]

    What Node supplies is taken as an interface: the WHATWG URL parser,
    [net.isIPv4], [net.isIPv6] and [dns.lookup]. *)

Record ParsedURL : Type := mkParsedURL
  { protocol : string
  ; hostname : string }.

(** A rejected [dns.lookup]: the [code] and [message] of the error. *)
Record LookupError : Type := mkLookupError
  { lookup_code : option string
  ; lookup_message : option string }.

Class Platform : Type := mkPlatform
  { parseURL : string -> option ParsedURL
  ; isIPv4 : string -> bool
  ; isIPv6 : string -> bool
  ; lookup : string -> LookupError + string }.

(** The errors [validateImageUrl] throws, one constructor per [throw]. *)
Inductive ValidationError : Type :=
| MalformedUrl (url : string)               (* `Invalid URL: ${url}` *)
| NonHttpsScheme                            (* 'Only HTTPS URLs are allowed for security reasons' *)
| BlockedHost                               (* 'Access to cloud metadata endpoints is not allowed' *)
| BlockedLiteralIP                          (* 'Access to internal/private IP addresses is not allowed' *)
| DnsRebindingDetected (host : string)      (* `Domain ${hostname} resolves to internal/private IP address` *)
| UnresolvableDomain (host : string)        (* `Domain ${hostname} could not be resolved` *)
| Rethrown (e : LookupError)                (* throw error *)
| ResolutionFailed (host : string) (msg : option string).
                                            (* `Failed to validate domain ${hostname}: ${err.message}` *)

Section Validate.
Import JsString.
Context {P : Platform}.
Variable isBlockedIP : string -> bool.

(** The body is the same, statement for statement, in utils.js and in the
    TypeScript source; the copies differ in the [isBlockedIP] they call. *)
Definition validateImageUrl_with (url : string) : ValidationError + string :=
  match parseURL url with
  | None => inl (MalformedUrl url)
  | Some parsed =>
      if negb (protocol parsed =? "https:") then inl NonHttpsScheme
      else
        let hostname := toLowerCase (hostname parsed) in
        let cleanHostname := stripBrackets hostname in
        if array_includes ["localhost"; "metadata.google.internal"; "metadata"] cleanHostname
        then inl BlockedHost
        else if isIPv4 cleanHostname || isIPv6 cleanHostname then
          if isBlockedIP cleanHostname then inl BlockedLiteralIP else inr url
        else
          match lookup hostname with
          | inr address =>
              if isBlockedIP address then inl (DnsRebindingDetected hostname)
              else inr url
          | inl err =>
              if match lookup_code err with
                 | Some c => c =? "ENOTFOUND"
                 | None => false
                 end
              then inl (UnresolvableDomain hostname)
              else if match lookup_message err with
                      | Some m => negb (m =? "") && includes m "resolves to internal"
                      | None => false
                      end
              then inl (Rethrown err)
              else inl (ResolutionFailed hostname (lookup_message err))
          end
  end.

End Validate.

Definition validateImageUrl_js {P : Platform} : string -> ValidationError + string :=
  validateImageUrl_with UtilsJs.isBlockedIP.

Definition validateImageUrl_ts {P : Platform} : string -> ValidationError + string :=
  validateImageUrl_with UtilsTs.isBlockedIP.

(* ------------------------------------------------------------------ *)
(** ** Errors, outcomes and the world the client runs in *)

Open Scope Z_scope.
Open Scope string_scope.

(** A rejected transport call as the [catch] of [_makeRequest] reads it:
    [error.name], [error.code], [error.message] and, when the server
    answered, [error.response.status] with
    [error.response?.data?.error?.message]. *)
Record Response : Type := mkResponse
  { status : Z
  ; data_error_message : option string }.

Record AxiosError : Type := mkAxiosError
  { err_name : string
  ; err_code : option string
  ; err_message : string
  ; err_response : option Response }.

(** The classified error of a failed request (section 3 of the design). *)
Inductive ErrorClassification : Type :=
| Unauthorized
| BadRequest (detail : string)
| NotFound (detail : string)
| RateLimited
| ServiceUnavailable
| Cancelled
| Network (detail : string)
| Unclassified (status : Z) (detail : string).

(** Everything the modelled code throws. *)
Inductive Thrown : Type :=
| Dispatch (e : ErrorClassification)
| ApiKeyNotSet                       (* 'API key not set. Please provide ...' *)
| VideoIdRequired                    (* 'Video ID is required' *)
| PollCancelled                      (* 'Video generation was cancelled' *)
| PollTimedOut (timeout : Z)         (* `Video generation timed out after ${timeout / 1000}s` *)
| JobFailed (msg : string)           (* video.error?.message || 'Video generation failed' *)
| Other (msg : string).

Inductive Outcome (A : Type) : Type :=
| Return (a : A)
| Throw (e : Thrown)
| OutOfFuel.

Arguments Return {A} a.
Arguments Throw {A} e.
Arguments OutOfFuel {A}.

(** A job snapshot as the polling loop reads it. *)
Record Video : Type := mkVideo
  { video_id : string
  ; video_status : string
  ; video_progress : option Z
  ; video_error_message : option string }.

Inductive Reply : Type :=
| Resolved (data : Video)
| Rejected (e : AxiosError).

(** What happens while the task is suspended at an [await]: how much later
    than asked it is resumed, whether the abort controller fired meanwhile,
    and, for a transport call, the answer. *)
Record Suspension : Type := mkSuspension
  { late : N
  ; abort_fires : bool
  ; reply : Reply }.

(** [clock] is [Date.now()]; it moves only at suspension points and only
    forward. [aborted] is [signal.aborted] of the one abort signal; nothing
    resets it. [pos] counts the suspensions so far, [requests] the transport
    calls issued. *)
Record World : Type := mkWorld
  { clock : Z
  ; aborted : bool
  ; pos : nat
  ; requests : nat }.

Inductive AbortSignal : Type := TheSignal.

(* ------------------------------------------------------------------ *)
(** ** Timers

    Node's [setTimeout(f, after)] sets [after] to 1 unless
    [after >= 1 && after <= TIMEOUT_MAX], and the timer then runs for
    [after] cut to an integer. *)

Definition TIMEOUT_MAX : Z := 2147483647.

(** The time in ms a timer runs that is set with an integer delay. *)
Definition timer_delay (ms : Z) : Z :=
  if (1 <=? ms)%Z && (ms <=? TIMEOUT_MAX)%Z then ms else 1.

(** Numbers as they are in JavaScript, IEEE 754 doubles, where the source
    does arithmetic on them that is not exact. *)
Module Double.
Import Floats.PrimFloat Floats.SpecFloat Floats.FloatOps.

(** The double of an integer from 0 to 2^53: the integer itself. *)
Definition of_Z (z : Z) : float := PrimFloat.of_uint63 (Uint63.of_Z z).

(** The integer part of a positive double. *)
Definition truncate (x : float) : Z :=
  match Prim2SF x with
  | S754_finite _ m e =>
      if (0 <=? e)%Z then Z.pos m * 2 ^ e else Z.pos m / 2 ^ (- e)
  | _ => 0
  end.

(** [after >= 1 && after <= TIMEOUT_MAX]. *)
Definition in_timer_range (after : float) : bool :=
  PrimFloat.leb (of_Z 1) after && PrimFloat.leb after (of_Z TIMEOUT_MAX).

(** [(interval / 1000) * 1000]: the delay [pause] hands to [setTimeout]
    when the polling loop calls it with [interval / 1000]. *)
Definition seconds_times_1000 (interval : Z) : float :=
  PrimFloat.mul (PrimFloat.div (of_Z interval) (of_Z 1000)) (of_Z 1000).

End Double.

(** The time in ms the timer of [pause(interval / 1000)] runs. An integer
    from 1 to 2^53 goes through the two roundings of the division and the
    product. Below 1 the product is below 1, above 2^53 it is above
    [TIMEOUT_MAX]: either way the timer is set to 1. *)
Definition pause_timer (interval : Z) : Z :=
  if (interval <? 1)%Z || (interval >? 9007199254740992)%Z then 1
  else
    let after := Double.seconds_times_1000 interval in
    if Double.in_timer_range after then Double.truncate after else 1.

Section Awaits.
Variable env : nat -> Suspension.

(** A timer of [duration] ms is set and awaited: the task is resumed when
    it has run, or later. *)
Definition timer_fires (duration : Z) (w : World) : World :=
  let s := env (pos w) in
  {| clock := clock w + duration + Z.of_N (late s)
   ; aborted := aborted w || abort_fires s
   ; pos := S (pos w)
   ; requests := requests w |}.

(** [await new Promise(resolve => setTimeout(resolve, ms))] for an integer
    [ms]. *)
Definition await_timeout (ms : Z) (w : World) : World :=
  timer_fires (timer_delay ms) w.

(** [await axios.get(url, requestConfig)] and its siblings. *)
Definition await_transport (w : World) : Reply * World :=
  let s := env (pos w) in
  (reply s,
   {| clock := clock w + Z.of_N (late s)
    ; aborted := aborted w || abort_fires s
    ; pos := S (pos w)
    ; requests := S (requests w) |}).

(** [pause(seconds)] of utils: [setTimeout(resolve, seconds * 1000)],
    called by the polling loop with [interval / 1000]. *)
Definition pause_ms (interval : Z) (w : World) : World :=
  timer_fires (pause_timer interval) w.

End Awaits.

(** [signal?.aborted]. *)
Definition signal_aborted (signal : option AbortSignal) (w : World) : bool :=
  match signal with
  | Some TheSignal => aborted w
  | None => false
  end.

(* ------------------------------------------------------------------ *)
(** ** [pollVideoWithProgress] (utils)

    The loop is written against the [VideoAPIInterface] of the source: an
    object with a [retrieveVideo] method and state of its own. The spinner
    only writes to stdout and is left out. *)

Class VideoAPIInterface (Api : Type) : Type :=
  { retrieveVideo : (nat -> Suspension) -> string -> option AbortSignal ->
                    Api -> World -> Outcome Video * Api * World }.

Record PollVideoOptions : Type := mkPollVideoOptions
  { interval : option Z
  ; timeout : option Z
  ; showSpinner : option bool
  ; signal : option AbortSignal }.

Definition default {A : Type} (d : A) (o : option A) : A :=
  match o with
  | Some a => a
  | None => d
  end.

(** The result of a polling session: how it ended, the state it left, and
    the worlds in which [api.retrieveVideo] was called, oldest first. *)
Record PollRun (Api : Type) : Type := mkPollRun
  { outcome : Outcome Video
  ; final_api : Api
  ; final_world : World
  ; fetched_in : list World }.

Arguments mkPollRun {Api} _ _ _ _.
Arguments outcome {Api} _.
Arguments final_api {Api} _.
Arguments final_world {Api} _.
Arguments fetched_in {Api} _.

Section Polling.
Variable env : nat -> Suspension.
Context {Api : Type} {I : VideoAPIInterface Api}.

(** [while (true) { ... }]; [fuel] bounds the number of iterations. *)
Fixpoint poll_loop (fuel : nat) (videoId : string) (interval timeout : Z)
    (signal : option AbortSignal) (startTime : Z)
    (api : Api) (w : World) (seen : list World) : PollRun Api :=
  match fuel with
  | O => mkPollRun OutOfFuel api w seen
  | S fuel' =>
      (* Check if operation was cancelled *)
      if signal_aborted signal w then mkPollRun (Throw PollCancelled) api w seen
      else
        (* Check timeout *)
        let elapsed := clock w - startTime in
        if (elapsed >? timeout)%Z then mkPollRun (Throw (PollTimedOut timeout)) api w seen
        else
          (* Retrieve video status *)
          let seen' := (seen ++ [w])%list in
          match retrieveVideo env videoId signal api w with
          | (Return video, api', w') =>
              if video_status video =? "completed" then
                mkPollRun (Return video) api' w' seen'
              else if video_status video =? "failed" then
                let errorMsg :=
                  match video_error_message video with
                  | Some m => if m =? "" then "Video generation failed" else m
                  | None => "Video generation failed"
                  end in
                mkPollRun (Throw (JobFailed errorMsg)) api' w' seen'
              else
                (* Wait before next poll *)
                poll_loop fuel' videoId interval timeout signal startTime
                          api' (pause_ms env interval w') seen'
          | (Throw e, api', w') => mkPollRun (Throw e) api' w' seen'
          | (OutOfFuel, api', w') => mkPollRun OutOfFuel api' w' seen'
          end
  end.

Definition pollVideoWithProgress (fuel : nat) (api : Api) (videoId : string)
    (options : PollVideoOptions) (w : World) : PollRun Api :=
  let interval := default 10000 (interval options) in
  let timeout := default 600000 (timeout options) in
  let startTime := clock w in
  poll_loop fuel videoId interval timeout (signal options) startTime api w [].

End Polling.

(* ------------------------------------------------------------------ *)
(** ** [OpenAIVideoAPI] (video-api.js) *)

(** [process.env] as far as the class reads it. *)
Record ProcessEnv : Type := mkProcessEnv
  { NODE_ENV : option string
  ; OPENAI_API_KEY : option string }.

Record ConstructorOptions : Type := mkConstructorOptions
  { opt_apiKey : option string
  ; opt_baseUrl : option string
  ; opt_rateLimitDelay : option Z }.

Record OpenAIVideoAPI : Type := mkOpenAIVideoAPI
  { apiKey : string
  ; baseUrl : string
  ; rateLimitDelay : Z
  ; lastRequestTime : Z }.

Inductive ConstructError : Type :=
| InsecureBaseUrl      (* 'API base URL must use HTTPS protocol for security' *)
| MissingApiKey.       (* 'OPENAI_API_KEY not found. ...' *)

Definition BASE_URL : string := "https://api.openai.com".

(** Truthiness of a string and of a possibly missing one. *)
Definition truthy (s : string) : bool := negb (s =? "").

Definition truthy_opt (o : option string) : bool :=
  match o with
  | Some s => truthy s
  | None => false
  end.

(** [getOpenAIApiKey()] of config: [process.env.OPENAI_API_KEY] or a throw. *)
Definition getOpenAIApiKey (penv : ProcessEnv) : option string :=
  if truthy_opt (OPENAI_API_KEY penv) then OPENAI_API_KEY penv else None.

(** The constructor; an option left out takes its default. Setting up the
    logger, which comes first, is left out. *)
Definition constructor (penv : ProcessEnv) (o : ConstructorOptions)
  : ConstructError + OpenAIVideoAPI :=
  let baseUrl := default BASE_URL (opt_baseUrl o) in
  let rateLimitDelay := default 1000 (opt_rateLimitDelay o) in
  (* Validate baseUrl uses HTTPS *)
  if truthy baseUrl && negb (JsString.startsWith baseUrl "https://") then inl InsecureBaseUrl
  else
    match (if truthy_opt (opt_apiKey o) then opt_apiKey o else getOpenAIApiKey penv) with
    | None => inl MissingApiKey
    | Some key =>
        inr {| apiKey := key
             ; baseUrl := baseUrl
             ; rateLimitDelay := rateLimitDelay
             ; lastRequestTime := 0 |}
    end.

Definition _redactApiKey (apiKey : option string) : string :=
  match apiKey with
  | None => "[REDACTED]"
  | Some k =>
      if negb (truthy k) || (String.length k <? 8)%nat then "[REDACTED]"
      else "sk-..." ++ JsString.slice_last 4 k
  end.

Definition genericMessages : list (Z * string) :=
  [ (400, "Invalid request parameters")
  ; (401, "Authentication failed")
  ; (403, "Access forbidden")
  ; (404, "Resource not found")
  ; (429, "Rate limit exceeded")
  ; (500, "Service error")
  ; (502, "Service temporarily unavailable")
  ; (503, "Service temporarily unavailable") ].

Fixpoint assoc (k : Z) (tbl : list (Z * string)) : option string :=
  match tbl with
  | [] => None
  | (k', v) :: rest => if (k =? k')%Z then Some v else assoc k rest
  end.

(** [process.env.NODE_ENV === 'production']. *)
Definition in_production (penv : ProcessEnv) : bool :=
  match NODE_ENV penv with
  | Some m => m =? "production"
  | None => false
  end.

(** [_sanitizeErrorMessage], lines 122-141. (The compiled copy ends the
    development branch with one more fallback, ['Unknown error'], for an
    empty [error.message].) *)
Definition _sanitizeErrorMessage (penv : ProcessEnv) (error : AxiosError) (status : Z)
  : string :=
  if in_production penv
  then
    match assoc status genericMessages with
    | Some m => if truthy m then m else "An error occurred"
    | None => "An error occurred"
    end
  else
    match err_response error with
    | Some r =>
        match data_error_message r with
        | Some m => if truthy m then m else err_message error
        | None => err_message error
        end
    | None => err_message error
    end.

(** [error.name === 'CanceledError' || error.code === 'ERR_CANCELED']. *)
Definition reports_cancellation (error : AxiosError) : bool :=
  (err_name error =? "CanceledError") ||
  match err_code error with
  | Some c => c =? "ERR_CANCELED"
  | None => false
  end.

(** The [catch] block of [_makeRequest]. *)
Definition _makeRequest_catch (penv : ProcessEnv) (error : AxiosError)
  : ErrorClassification :=
  if reports_cancellation error
  then Cancelled
  else
    match err_response error with
    | Some r =>
        let status := status r in
        let sanitizedMessage := _sanitizeErrorMessage penv error status in
        if (status =? 401)%Z then Unauthorized
        else if (status =? 400)%Z then BadRequest sanitizedMessage
        else if (status =? 404)%Z then NotFound sanitizedMessage
        else if (status =? 429)%Z then RateLimited
        else if (status =? 500)%Z || (status =? 502)%Z || (status =? 503)%Z
        then ServiceUnavailable
        else Unclassified status sanitizedMessage
    | None => Network (err_message error)
    end.

(** The text of the [Error] thrown for each classification. *)
Definition error_text (e : ErrorClassification) : string :=
  match e with
  | Unauthorized => "Authentication failed. Please check your API key."
  | BadRequest d => "Bad request: " ++ d
  | NotFound d => "Resource not found: " ++ d
  | RateLimited => "Rate limit exceeded. Please try again later."
  | ServiceUnavailable => "OpenAI service error. Please try again later."
  | Cancelled => "Request was cancelled"
  | Network d => "Request failed: " ++ d
  | Unclassified st d => "API error (" ++ JsString.ofZ st ++ "): " ++ d
  end.

Section Client.
Variable env : nat -> Suspension.
Variable penv : ProcessEnv.

Definition _verifyApiKey (this : OpenAIVideoAPI) : option Thrown :=
  if negb (truthy (apiKey this)) then Some ApiKeyNotSet else None.

Definition set_lastRequestTime (this : OpenAIVideoAPI) (t : Z) : OpenAIVideoAPI :=
  {| apiKey := apiKey this
   ; baseUrl := baseUrl this
   ; rateLimitDelay := rateLimitDelay this
   ; lastRequestTime := t |}.

(** The pacing delay [_makeRequest] decides on, if any (lines 182-187). *)
Definition pacing_delay (this : OpenAIVideoAPI) (w : World) : option Z :=
  let now := clock w in
  let timeSinceLastRequest := now - lastRequestTime this in
  if (lastRequestTime this >? 0)%Z && (timeSinceLastRequest <? rateLimitDelay this)%Z
  then Some (rateLimitDelay this - timeSinceLastRequest)
  else None.

(** Rate limiting: the head of [_makeRequest], up to and including
    [this.lastRequestTime = Date.now()]. *)
Definition pace (this : OpenAIVideoAPI) (w : World) : OpenAIVideoAPI * World :=
  let w1 :=
    match pacing_delay this w with
    | Some delay => await_timeout env delay w
    | None => w
    end in
  (set_lastRequestTime this (clock w1), w1).

(** What reading [response.data] of an unassigned [response] raises: the
    legacy copy has no final [else] for an unknown method. (The compiled
    copy throws 'Unsupported HTTP method' there; either way the [catch]
    sees an error without a response.) *)
Definition unassigned_response : AxiosError :=
  {| err_name := "TypeError"
   ; err_code := None
   ; err_message := "Cannot read properties of undefined (reading 'data')"
   ; err_response := None |}.

(** [_makeRequest]. The URL and the headers it builds do not reach the
    model: the environment answers by position, whatever is asked. *)
Definition _makeRequest (method : string) (signal : option AbortSignal)
    (this : OpenAIVideoAPI) (w : World) : Outcome Video * OpenAIVideoAPI * World :=
  let '(this1, w1) := pace this w in
  let m := JsString.toUpperCase method in
  let '(r, w2) :=
    if (m =? "GET") || (m =? "POST") || (m =? "DELETE")
    then await_transport env w1
    else (Rejected unassigned_response, w1) in
  match r with
  | Resolved data => (Return data, this1, w2)
  | Rejected error => (Throw (Dispatch (_makeRequest_catch penv error)), this1, w2)
  end.

Definition OpenAIVideoAPI_retrieveVideo (videoId : string) (signal : option AbortSignal)
    (this : OpenAIVideoAPI) (w : World) : Outcome Video * OpenAIVideoAPI * World :=
  match _verifyApiKey this with
  | Some e => (Throw e, this, w)
  | None =>
      if negb (truthy videoId) then (Throw VideoIdRequired, this, w)
      else _makeRequest "GET" signal this w
  end.

End Client.

(** The class implements the interface the polling loop is written against. *)
#[export] Instance OpenAIVideoAPI_interface (penv : ProcessEnv)
  : VideoAPIInterface OpenAIVideoAPI :=
  {| retrieveVideo := fun env videoId signal this w =>
       OpenAIVideoAPI_retrieveVideo env penv videoId signal this w |}.

Section ClientWait.
Variable env : nat -> Suspension.
Variable penv : ProcessEnv.

Definition waitForVideo (fuel : nat) (videoId : string) (options : PollVideoOptions)
    (this : OpenAIVideoAPI) (w : World) : PollRun OpenAIVideoAPI :=
  match _verifyApiKey this with
  | Some e => mkPollRun (Throw e) this w []
  | None =>
      if negb (truthy videoId) then mkPollRun (Throw VideoIdRequired) this w []
      else pollVideoWithProgress (I := OpenAIVideoAPI_interface penv)
             env fuel this videoId options w
  end.

End ClientWait.

(** A world before anything was awaited. *)
Definition boot (t : Z) : World :=
  {| clock := t; aborted := false; pos := 0; requests := 0 |}.

Definition quiet (r : Reply) : nat -> Suspension :=
  fun _ => {| late := 0; abort_fires := false; reply := r |}.

Definition in_progress (p : Z) : Video :=
  {| video_id := "video_123"; video_status := "in_progress";
     video_progress := Some p; video_error_message := None |}.

(* ================================================================== *)
(** * Vocabulary of the properties

    Execution modes, sample errors, address ranges as numbers, a stand-in
    platform for closed examples, and call sequences on one instance. *)

Definition production : ProcessEnv := {| NODE_ENV := Some "production"; OPENAI_API_KEY := None |}.
Definition development : ProcessEnv := {| NODE_ENV := Some "development"; OPENAI_API_KEY := None |}.

(** The seven statuses with a branch of their own. *)
Definition named_status (st : Z) : Prop :=
  st = 401 \/ st = 400 \/ st = 404 \/ st = 429 \/ st = 500 \/ st = 502 \/ st = 503.

(** A request the caller aborted: the transport rejects with a
    [CanceledError] and there is no response. *)
Definition aborted_call : AxiosError :=
  {| err_name := "CanceledError"
   ; err_code := Some "ERR_CANCELED"
   ; err_message := "canceled"
   ; err_response := None |}.

(** A 400 from the server with a message of its own. *)
Definition rejected_400 : AxiosError :=
  {| err_name := "AxiosError"
   ; err_code := Some "ERR_BAD_REQUEST"
   ; err_message := "Request failed with status code 400"
   ; err_response :=
       Some {| status := 400
             ; data_error_message := Some "Detailed error message" |} |}.

(** [cleanIP.toLowerCase().startsWith('::ffff:')], the test that only the
    TypeScript copy makes. *)
Definition mapped (ip : string) : bool :=
  JsString.startsWith (JsString.toLowerCase (JsString.stripBrackets ip)) "::ffff:".

Record IPv4 : Type := mkIPv4 { o1 : N; o2 : N; o3 : N; o4 : N }.

(** The dotted-decimal text of an address. *)
Definition dotted (a : IPv4) : string :=
  JsString.ofN (o1 a) ++ "." ++ JsString.ofN (o2 a) ++ "." ++ JsString.ofN (o3 a) ++ "." ++ JsString.ofN (o4 a).

(** 127.0.0.0/8, 10.0.0.0/8, 172.16.0.0/12, 192.168.0.0/16, 169.254.0.0/16
    and 0.0.0.0/8. *)
Definition in_blocked_range (a : IPv4) : bool :=
  (o1 a =? 127)%N || (o1 a =? 10)%N ||
  ((o1 a =? 172)%N && (16 <=? o2 a)%N && (o2 a <=? 31)%N) ||
  ((o1 a =? 192)%N && (o2 a =? 168)%N) ||
  ((o1 a =? 169)%N && (o2 a =? 254)%N) ||
  (o1 a =? 0)%N.

(** The text every address of a blocked range starts with. *)
Definition range_prefixes : list string :=
  [ "127."; "10."; "192.168."; "169.254."; "0."
  ; "172.16."; "172.17."; "172.18."; "172.19."; "172.20."; "172.21."
  ; "172.22."; "172.23."; "172.24."; "172.25."; "172.26."; "172.27."
  ; "172.28."; "172.29."; "172.30."; "172.31." ].

(** A number below 65536 in lower-case hexadecimal, no leading zero. *)
Definition hex (n : N) : string :=
  HexadecimalString.NilZero.string_of_uint (N.to_hex_uint n).

(** The text in which the URL parser of the platform hands over the host
    [::ffff:a.b.c.d]: the IPv4-mapped address with its last 32 bits as two
    hexadecimal groups, [::ffff:10.0.0.1] as [::ffff:a00:1]. *)
Definition mapped_hex (a : IPv4) : string :=
  "::ffff:" ++ hex (256 * o1 a + o2 a) ++ ":" ++ hex (256 * o3 a + o4 a).

(** The four mapped addresses the tests of the TypeScript copy list. *)
Definition tested_addresses : list IPv4 :=
  [ mkIPv4 10 0 0 1; mkIPv4 192 168 1 1; mkIPv4 172 16 0 1; mkIPv4 169 254 169 254 ].

Definition hostname_of (parsed : option ParsedURL) : option string :=
  match parsed with
  | Some u => Some (hostname u)
  | None => None
  end.

(** The URL has the scheme https and the parser hands over [host]. *)
Definition https_host {P : Platform} (url host : string) : Prop :=
  exists parsed,
    parseURL url = Some parsed /\ protocol parsed = "https:" /\ hostname parsed = host.

(** [host] is a name, none of the refused ones, and the resolver answers
    with [address]. *)
Definition resolves_to {P : Platform} (host address : string) : Prop :=
  let name := JsString.toLowerCase host in
  JsString.array_includes ["localhost"; "metadata.google.internal"; "metadata"]
    (JsString.stripBrackets name) = false /\
  isIPv4 (JsString.stripBrackets name) || isIPv6 (JsString.stripBrackets name) = false /\
  lookup name = inr address.

(** A platform for the closed examples: URLs of the shape
    [scheme://host/path], a host with a colon taken for IPv6 and one of
    digits and dots for IPv4, and a resolver with one entry. It is no model
    of Node's URL parser. Of what that parser does to a host it does one
    thing, the rewriting of [[::ffff:a.b.c.d]] into two hexadecimal groups;
    any other host it keeps as typed, which is what Node does for the hosts
    of the examples (lower-case names, dotted IPv4 with four parts, IPv6 in
    its shortest lower-case form) and not for others ([127.1], upper case,
    user info). The theorems hold for every platform; the examples only show
    that their hypotheses can be met. *)
Module Fixture.
Import JsString.

Fixpoint until_slash (s : string) : string :=
  match s with
  | EmptyString => EmptyString
  | String c t => if Ascii.eqb c "/" then EmptyString else String c (until_slash t)
  end.

(** The value of a text of decimal digits. *)
Fixpoint decimal (acc : option N) (s : string) : option N :=
  match s with
  | EmptyString => acc
  | String c t =>
      if Regex.in_range "0" "9" c
      then decimal (Some (10 * match acc with Some n => n | None => 0 end
                          + N.of_nat (nat_of_ascii c - 48))%N) t
      else None
  end.

(** The parts of a text between its dots. *)
Fixpoint parts (cur : string) (s : string) : list string :=
  match s with
  | EmptyString => [cur]
  | String c t => if Ascii.eqb c "." then cur :: parts EmptyString t
                  else parts (cur ++ String c EmptyString) t
  end.

(** A dotted quad of four numbers up to 255. *)
Definition quad (s : string) : option IPv4 :=
  match map (decimal None) (parts EmptyString s) with
  | [Some a; Some b; Some c; Some d] =>
      if ((a <=? 255) && (b <=? 255) && (c <=? 255) && (d <=? 255))%N
      then Some (mkIPv4 a b c d) else None
  | _ => None
  end.

(** [[::ffff:a.b.c.d]] as the parser serialises it. *)
Definition serialise (host : string) : string :=
  let inner := stripBrackets host in
  if (host =? "[" ++ inner ++ "]") && String.prefix "::ffff:" (toLowerCase inner)
  then match quad (substring_from 7 inner) with
       | Some a => "[" ++ mapped_hex a ++ "]"
       | None => host
       end
  else host.

Definition parse (url : string) : option ParsedURL :=
  if String.prefix "https://" url
  then Some {| protocol := "https:"
             ; hostname := serialise (until_slash (substring_from 8 url)) |}
  else if String.prefix "http://" url
  then Some {| protocol := "http:"
             ; hostname := serialise (until_slash (substring_from 7 url)) |}
  else None.

Fixpoint has_colon (s : string) : bool :=
  match s with
  | EmptyString => false
  | String c t => Ascii.eqb c ":" || has_colon t
  end.

Fixpoint digits_and_dots (s : string) : bool :=
  match s with
  | EmptyString => true
  | String c t =>
      (Ascii.eqb c "." || Regex.in_range "0" "9" c) && digits_and_dots t
  end.

Definition resolve (entry : string * string) (host : string) : LookupError + string :=
  if host =? fst entry then inr (snd entry)
  else inl {| lookup_code := Some "ENOTFOUND"; lookup_message := None |}.

Definition node (entry : string * string) : Platform :=
  {| parseURL := parse
   ; isIPv4 := fun s => negb (s =? "") && digits_and_dots s
   ; isIPv6 := has_colon
   ; lookup := resolve entry |}.

End Fixture.

Definition hex_digit (c : ascii) : option Z :=
  let n := Z.of_nat (nat_of_ascii c) in
  if (48 <=? n)%Z && (n <=? 57)%Z then Some (n - 48)
  else if (97 <=? n)%Z && (n <=? 102)%Z then Some (n - 87)
  else if (65 <=? n)%Z && (n <=? 70)%Z then Some (n - 55)
  else None.

Fixpoint leading_group (s : string) (acc : Z) : Z :=
  match s with
  | EmptyString => acc
  | String c t =>
      match hex_digit c with
      | Some d => leading_group t (16 * acc + d)
      | None => acc
      end
  end.

(** The first 16 bits of an IPv6 address written with a full first group. *)
Definition first_group (s : string) : Z := leading_group s 0.

(** fe80::/10: the top ten bits are 1111111010. *)
Definition in_fe80_10 (s : string) : bool := (Z.shiftr (first_group s) 6 =? 1018)%Z.

(** fc00::/7: the top seven bits are 1111110. *)
Definition in_fc00_7 (s : string) : bool := (Z.shiftr (first_group s) 9 =? 126)%Z.

(** The stamp is never ahead of the clock. *)
Definition stamped_in_past (this : OpenAIVideoAPI) (w : World) : Prop :=
  lastRequestTime this <= clock w.

Section Calls.
Variable env : nat -> Suspension.
Variable penv : ProcessEnv.

(** What a caller can do with one instance, one call after the other. *)
Inductive Call : Type :=
| CallMakeRequest (method : string) (signal : option AbortSignal)
| CallRetrieveVideo (videoId : string) (signal : option AbortSignal)
| CallWaitForVideo (fuel : nat) (videoId : string) (options : PollVideoOptions)
| Idle (ms : Z).

Definition run_call (st : OpenAIVideoAPI * World) (c : Call) : OpenAIVideoAPI * World :=
  let '(this, w) := st in
  match c with
  | CallMakeRequest method signal =>
      let '(_, this', w') := _makeRequest env penv method signal this w in (this', w')
  | CallRetrieveVideo videoId signal =>
      let '(_, this', w') := OpenAIVideoAPI_retrieveVideo env penv videoId signal this w in
      (this', w')
  | CallWaitForVideo fuel videoId options =>
      let r := waitForVideo env penv fuel videoId options this w in
      (final_api r, final_world r)
  | Idle ms => (this, await_timeout env ms w)
  end.

Definition run_calls (st : OpenAIVideoAPI * World) (cs : list Call) : OpenAIVideoAPI * World :=
  fold_left run_call cs st.

End Calls.

(** Calls that overlap interleave at their [await]s. Whatever the
    interleaving, the only store to [lastRequestTime] writes the clock, and
    between stores time only passes. *)
Inductive Atomic : Type :=
| Passes (d : N)
| Stamps.

Definition atomic_step (st : Z * Z) (a : Atomic) : Z * Z :=
  let '(stamp, now) := st in
  match a with
  | Passes d => (stamp, now + Z.of_N d)
  | Stamps => (now, now)
  end.

Definition test_options (delay : Z) : ConstructorOptions :=
  {| opt_apiKey := Some "sk-test123"; opt_baseUrl := None; opt_rateLimitDelay := Some delay |}.

Definition test_client (delay : Z) : OpenAIVideoAPI :=
  {| apiKey := "sk-test123"; baseUrl := BASE_URL; rateLimitDelay := delay; lastRequestTime := 0 |}.

(** An API object that answers with whatever the transport script holds,
    as a test double does. *)
#[export] Instance Scripted_interface : VideoAPIInterface unit :=
  {| retrieveVideo := fun env videoId signal api w =>
       let '(r, w') := await_transport env w in
       match r with
       | Resolved video => (Return video, api, w')
       | Rejected e => (Throw (Other (err_message e)), api, w')
       end |}.

Definition cancellable (interval timeout : Z) : PollVideoOptions :=
  {| interval := Some interval; timeout := Some timeout;
     showSpinner := Some false; signal := Some TheSignal |}.

Definition presignalled (t : Z) : World :=
  {| clock := t; aborted := true; pos := 0; requests := 0 |}.

(** The controller fires during the second suspension: the first sleep. *)
Definition abort_during_first_sleep : nat -> Suspension :=
  fun k => {| late := 0; abort_fires := Nat.eqb k 1; reply := Resolved (in_progress 25) |}.

Section Job.
Variable env : nat -> Suspension.
Context {Api : Type} {I : VideoAPIInterface Api}.
Variable usable : Api -> Prop.
Variable videoId : string.
Variable latency : Z.

(** The job never leaves [in_progress]: on a usable API object every
    status fetch resolves with that status, takes at least [latency] on the
    clock, and leaves the object usable. *)
Definition always_in_progress : Prop :=
  forall api w, usable api ->
  exists video api' w',
    retrieveVideo env videoId None api w = (Return video, api', w') /\
    video_status video = "in_progress" /\
    clock w + latency <= clock w' /\
    usable api'.

End Job.

(** Fetches are issued only while the elapsed time is within the timeout. *)
Definition within_timeout (startTime timeout : Z) (at_fetch : World) : Prop :=
  clock at_fetch - startTime <= timeout.

Definition uncancellable (interval timeout : Z) (spinner : option bool) : PollVideoOptions :=
  {| interval := Some interval; timeout := Some timeout;
     showSpinner := spinner; signal := None |}.

(* ================================================================== *)
(** * Further vocabulary *)

(** [n] IPv4-mapped prefixes in front of an address. *)
Fixpoint nested (n : nat) (v : string) : string :=
  match n with
  | O => v
  | S k => "::ffff:" ++ nested k v
  end.

(** The three host names [validateImageUrl] refuses before anything else. *)
Definition refused_names : list string :=
  ["localhost"; "metadata.google.internal"; "metadata"].

(** An API object that always answers, never turns the clock back and
    issues at most one request per status fetch. *)
Definition steady {Api : Type} {I : VideoAPIInterface Api} (env : nat -> Suspension)
    (videoId : string) (signal : option AbortSignal) : Prop :=
  forall api w,
    let '(r, _, w') := retrieveVideo env videoId signal api w in
    r <> OutOfFuel /\ clock w <= clock w' /\ (requests w' <= S (requests w))%nat.

(** [waitForVideo(id)] with no options. *)
Definition default_poll : PollVideoOptions :=
  {| interval := None; timeout := None; showSpinner := None; signal := None |}.

(* ------------------------------------------------------------------ *)
(** ** [sanitizeForFilename] (utils) *)

(** The class [[a-z0-9]]. *)
Definition is_lower_alnum (c : ascii) : bool :=
  let n := nat_of_ascii c in
  ((97 <=? n) && (n <=? 122) || (48 <=? n) && (n <=? 57))%nat.

(** [.replace(/[^a-z0-9]+/g, '_')]: every maximal run of units outside the
    class becomes one underscore. [in_run] tells that the unit before
    belongs to a run that has been replaced already. *)
Fixpoint replace_runs (in_run : bool) (s : string) : string :=
  match s with
  | EmptyString => EmptyString
  | String c t =>
      if is_lower_alnum c then String c (replace_runs false t)
      else if in_run then replace_runs true t
      else String "_" (replace_runs true t)
  end.

(** The first alternative of [/^_+|_+$/g]: the underscores at offset 0. *)
Fixpoint strip_leading (s : string) : string :=
  match s with
  | String c t => if Ascii.eqb c "_" then strip_leading t else s
  | EmptyString => EmptyString
  end.

(** The second alternative of [/^_+|_+$/g]: the underscores at the end. *)
Fixpoint strip_trailing (s : string) : string :=
  match s with
  | EmptyString => EmptyString
  | String c t =>
      let t' := strip_trailing t in
      if Ascii.eqb c "_" && (t' =? "") then EmptyString else String c t'
  end.

(** [sanitizeForFilename(text, maxLength = 50)]; [substring(0, maxLength)]
    takes a negative [maxLength] as 0. *)
Definition sanitizeForFilename (text : string) (maxLength : option Z) : string :=
  String.substring 0 (Z.to_nat (default 50 maxLength))
    (strip_trailing (strip_leading (replace_runs false (JsString.toLowerCase text)))).

(** [promptToFilename(prompt, maxLength = 50)]. *)
Definition promptToFilename (prompt : string) (maxLength : option Z) : string :=
  sanitizeForFilename prompt (Some (default 50 maxLength)).

(* ------------------------------------------------------------------ *)
(** ** [validateApiKeyFormat] (config) *)

(** The class [[A-Za-z0-9_-]]. *)
Definition is_key_char (c : ascii) : bool :=
  let n := nat_of_ascii c in
  ((65 <=? n) && (n <=? 90) || (97 <=? n) && (n <=? 122) || (48 <=? n) && (n <=? 57)
   || (n =? 95) || (n =? 45))%nat.

Fixpoint all_units (p : ascii -> bool) (s : string) : bool :=
  match s with
  | EmptyString => true
  | String c t => p c && all_units p t
  end.

(** [[A-Za-z0-9_-]{40,}$]: the rest of the text, all of it in the class and
    40 units at least. *)
Definition key_tail (s : string) : bool :=
  all_units is_key_char s && (40 <=? String.length s)%nat.

(** [/^sk-(proj-)?[A-Za-z0-9_-]{40,}$/.test(apiKey)], after the test for an
    empty key: the optional group is tried first, then left out. *)
Definition validateApiKeyFormat (apiKey : string) : bool :=
  if negb (truthy apiKey) then false
  else
    JsString.startsWith apiKey "sk-" &&
    (let rest := JsString.substring_from 3 apiKey in
     (JsString.startsWith rest "proj-" && key_tail (JsString.substring_from 5 rest))
     || key_tail rest).

(** What a file name made by [sanitizeForFilename] may hold. *)
Definition is_filename_unit (c : ascii) : bool :=
  is_lower_alnum c || Ascii.eqb c "_".

Definition first_unit (s : string) : option ascii :=
  match s with
  | EmptyString => None
  | String c _ => Some c
  end.

Fixpoint last_unit (s : string) : option ascii :=
  match s with
  | EmptyString => None
  | String c EmptyString => Some c
  | String _ t => last_unit t
  end.

(* ------------------------------------------------------------------ *)
(** ** Files: [validateVideoFile] and [validateImagePath] (utils) *)

(** [buffer.slice(a, b)] for [0 <= a <= b]. *)
Definition slice (a b : nat) (buffer : list Byte.byte) : list Byte.byte :=
  firstn (b - a) (skipn a buffer).

(** [buffer.toString()] where the source compares it with ASCII text: a
    byte below 128 is the code unit of that value, and no byte from 128 up
    decodes to a unit below 128. *)
Definition toString (buffer : list Byte.byte) : string := string_of_list_byte buffer.

(** [buffer[i] === v]; out of range the left side is [undefined]. *)
Definition byte_is (buffer : list Byte.byte) (i : nat) (v : Byte.byte) : bool :=
  match nth_error buffer i with
  | Some x => Byte.eqb x v
  | None => false
  end.

Inductive VideoFileError : Type :=
| NotABuffer                            (* 'Invalid video data: expected Buffer' *)
| EmptyBuffer                           (* 'Video buffer is empty' *)
| ExceedsMaximum (length maxSize : Z)   (* `Video file size (${actualMB}MB) exceeds maximum (${maxMB}MB)` *)
| NotMp4                                (* 'File does not appear to be a valid MP4 video' *)
| TooSmall.                             (* 'Video file is too small to be valid' *)

Record FileValidation : Type := mkFileValidation
  { file_valid : bool
  ; file_errors : list VideoFileError }.

Definition validSignatures : list string :=
  ["ftyp"; "mdat"; "moov"; "wide"; "free"; "skip"].

(** [validateVideoFile(buffer, constraints = {})]; [None] is a value that
    is no [Buffer], [maxSize] is [constraints.maxSize]. *)
Definition validateVideoFile (buffer : option (list Byte.byte)) (maxSize : option Z)
  : FileValidation :=
  match buffer with
  | None => mkFileValidation false [NotABuffer]
  | Some buffer =>
      if (List.length buffer =? 0)%nat then mkFileValidation false [EmptyBuffer]
      else
        (* Check file size *)
        let errors1 :=
          match maxSize with
          | Some m =>
              if negb (m =? 0)%Z && (Z.of_nat (List.length buffer) >? m)%Z
              then [ExceedsMaximum (Z.of_nat (List.length buffer)) m]
              else []
          | None => []
          end in
        (* Check MP4 magic bytes *)
        let errors2 :=
          if (8 <=? List.length buffer)%nat then
            let signature := toString (slice 4 8 buffer) in
            if negb (JsString.array_includes validSignatures signature)
            then (errors1 ++ [NotMp4])%list
            else errors1
          else (errors1 ++ [TooSmall])%list in
        mkFileValidation (List.length errors2 =? 0)%nat errors2
  end.

(** An error of [fs]: [error.code] and [error.message]. *)
Record FsError : Type := mkFsError
  { fs_code : option string
  ; fs_message : string }.

(** The disk: what [fs.readFile(path)] gives. *)
Class FileSystem : Type :=
  { readFile : string -> FsError + list Byte.byte }.

Section Files.
Context {F : FileSystem}.
Variable env : nat -> Suspension.

(** [await fs.readFile(filepath)]: one suspension, no transport call. *)
Definition await_readFile (filepath : string) (w : World)
  : (FsError + list Byte.byte) * World :=
  let s := env (pos w) in
  (readFile filepath,
   {| clock := clock w + Z.of_N (late s)
    ; aborted := aborted w || abort_fires s
    ; pos := S (pos w)
    ; requests := requests w |}).

(** [validateImagePath(filepath)]. The two errors thrown inside the [try]
    have no [code] and leave the [catch] as they are. *)
Definition validateImagePath (filepath : string) (w : World) : (Thrown + string) * World :=
  match await_readFile filepath w with
  | (inr buffer, w1) =>
      (* Check file size (must be > 0) *)
      if (List.length buffer =? 0)%nat
      then (inl (Other ("Image file is empty: " ++ filepath)), w1)
      else
        (* Check magic bytes for common image formats *)
        let magicBytes := slice 0 4 buffer in
        let isPNG := byte_is magicBytes 0 Byte.x89 && byte_is magicBytes 1 Byte.x50 &&
                     byte_is magicBytes 2 Byte.x4e && byte_is magicBytes 3 Byte.x47 in
        let isJPEG := byte_is magicBytes 0 Byte.xff && byte_is magicBytes 1 Byte.xd8 &&
                      byte_is magicBytes 2 Byte.xff in
        let isWebP := toString (slice 8 12 buffer) =? "WEBP" in
        let isGIF := toString (slice 0 3 magicBytes) =? "GIF" in
        if negb isPNG && negb isJPEG && negb isWebP && negb isGIF
        then (inl (Other ("File does not appear to be a valid image (PNG, JPEG, WebP, or GIF): "
                          ++ filepath)), w1)
        else (inr filepath, w1)
  | (inl error, w1) =>
      match fs_code error with
      | Some code =>
          if code =? "ENOENT"
          then (inl (Other ("Image file not found: " ++ filepath)), w1)
          else if code =? "EACCES"
          then (inl (Other ("Permission denied reading image file: " ++ filepath)), w1)
          else (inl (Other (fs_message error)), w1)
      | None => (inl (Other (fs_message error)), w1)
      end
  end.

End Files.

(* ------------------------------------------------------------------ *)
(** ** [validateVideoParams] (config) *)

(** An entry of [VIDEO_MODEL_CONSTRAINTS], the fields the validator reads. *)
Record VideoConstraints : Type := mkVideoConstraints
  { c_sizes : list string
  ; c_seconds : list Z
  ; c_quality : list string
  ; c_promptMaxLength : Z
  ; c_variants : list string }.

Definition sora_2 : VideoConstraints :=
  {| c_sizes := ["720x1280"; "1280x720"; "1024x1792"; "1792x1024"]
   ; c_seconds := [4; 8; 12]
   ; c_quality := ["standard"]
   ; c_promptMaxLength := 10000
   ; c_variants := ["video"; "thumbnail"; "spritesheet"] |}.

Definition sora_2_pro : VideoConstraints :=
  {| c_sizes := ["720x1280"; "1280x720"; "1024x1792"; "1792x1024"]
   ; c_seconds := [4; 8; 12]
   ; c_quality := ["standard"]
   ; c_promptMaxLength := 10000
   ; c_variants := ["video"; "thumbnail"; "spritesheet"] |}.

(** [object[key]] on an object literal: a property of its own, a member
    inherited from [Object.prototype], or [undefined]. *)
Inductive Member (A : Type) : Type :=
| Own (a : A)
| Inherited
| Absent.

Arguments Own {A} a.
Arguments Inherited {A}.
Arguments Absent {A}.

(** The names [Object.prototype] answers to. *)
Definition object_prototype_keys : list string :=
  [ "constructor"; "hasOwnProperty"; "isPrototypeOf"; "propertyIsEnumerable"
  ; "toLocaleString"; "toString"; "valueOf"; "__proto__"
  ; "__defineGetter__"; "__defineSetter__"; "__lookupGetter__"; "__lookupSetter__" ].

(** [VIDEO_MODEL_CONSTRAINTS[model]]. *)
Definition VIDEO_MODEL_CONSTRAINTS (model : string) : Member VideoConstraints :=
  if model =? "sora-2" then Own sora_2
  else if model =? "sora-2-pro" then Own sora_2_pro
  else if JsString.array_includes object_prototype_keys model then Inherited
  else Absent.

(** A number: an integer, or anything else ([NaN], a fraction, an
    infinity) with the text a template prints for it. Integers are taken
    below 10^21 in size, where they print in plain decimal. *)
Inductive JsNumber : Type :=
| Integer (z : Z)
| NonInteger (shown : string).

(** [params.seconds]: [number | string]. *)
Inductive Seconds : Type :=
| SecondsNumber (n : JsNumber)
| SecondsString (s : string).

(** The parameters the validator and [createVideo] read; [None] is
    [undefined]. *)
Record VideoParams : Type := mkVideoParams
  { p_prompt : option string
  ; p_model : option string
  ; p_size : option string
  ; p_seconds : option Seconds
  ; p_input_reference : option string
  ; p_quality : option string
  ; p_variant : option string }.

(** White space as [parseInt] skips it, among the code units below 256. *)
Definition is_white_space (c : ascii) : bool :=
  let n := nat_of_ascii c in
  ((9 <=? n) && (n <=? 13) || (n =? 32) || (n =? 160))%nat.

Fixpoint skip_white_space (s : string) : string :=
  match s with
  | String c t => if is_white_space c then skip_white_space t else s
  | EmptyString => EmptyString
  end.

Definition digit_value (c : ascii) : option Z :=
  let n := nat_of_ascii c in
  if ((48 <=? n) && (n <=? 57))%nat then Some (Z.of_nat (n - 48)) else None.

(** The decimal digits at the front of [s]; [acc] is what they are worth
    so far, [None] before the first. *)
Fixpoint leading_digits (acc : option Z) (s : string) : option Z :=
  match s with
  | String c t =>
      match digit_value c with
      | Some d => leading_digits (Some (10 * default 0 acc + d)) t
      | None => acc
      end
  | EmptyString => acc
  end.

(** [parseInt(s, 10)]; [None] is [NaN]. The value is the exact integer;
    beyond 2^53 the source rounds it, which no comparison with a small
    integer can tell. *)
Definition parseInt (s : string) : option Z :=
  let s1 := skip_white_space s in
  let '(sign, s2) :=
    match s1 with
    | String "-" t => (-1, t)
    | String "+" t => (1, t)
    | _ => (1, s1)
    end in
  match leading_digits None s2 with
  | Some n => Some (sign * n)
  | None => None
  end.

(** [secondsNum]. *)
Definition secondsNum (seconds : Seconds) : option Z :=
  match seconds with
  | SecondsString s => parseInt s
  | SecondsNumber (Integer z) => Some z
  | SecondsNumber (NonInteger _) => None
  end.

(** [`${params.seconds}`]. *)
Definition show_seconds (seconds : Seconds) : string :=
  match seconds with
  | SecondsString s => s
  | SecondsNumber (Integer z) => JsString.ofZ z
  | SecondsNumber (NonInteger shown) => shown
  end.

(** [xs.includes(n)] on an array of numbers; [NaN] is in none of them. *)
Definition number_includes (xs : list Z) (n : option Z) : bool :=
  match n with
  | Some z => existsb (Z.eqb z) xs
  | None => false
  end.

Definition quote_mark : string := String (ascii_of_nat 34) EmptyString.

Definition line_feed : string := String (ascii_of_nat 10) EmptyString.

Record VideoValidation : Type := mkVideoValidation
  { valid : bool
  ; errors : list string }.

(** What calling [includes] on a missing field raises. *)
Definition includes_of_undefined : Thrown :=
  Other "Cannot read properties of undefined (reading 'includes')".

(** [validateVideoParams(model, params)]. Under a name inherited from
    [Object.prototype] the constraints are an object with none of the
    fields: the length comparison with [undefined] is false, and the first
    list that is consulted raises. *)
Definition validateVideoParams (model : string) (params : VideoParams)
  : Thrown + VideoValidation :=
  match VIDEO_MODEL_CONSTRAINTS model with
  | Absent => inr (mkVideoValidation false ["Unknown video model: " ++ model])
  | Inherited =>
      if truthy_opt (p_size params) then inl includes_of_undefined
      else if match p_seconds params with Some _ => true | None => false end
      then inl includes_of_undefined
      else if truthy_opt (p_quality params) then inl includes_of_undefined
      else if truthy_opt (p_variant params) then inl includes_of_undefined
      else inr (mkVideoValidation true [])
  | Own constraints =>
      (* Validate prompt length *)
      let errors1 :=
        match p_prompt params with
        | Some prompt =>
            if truthy prompt && (Z.of_nat (String.length prompt) >? c_promptMaxLength constraints)%Z
            then ["Prompt exceeds maximum length of " ++
                  JsString.ofZ (c_promptMaxLength constraints) ++ " characters for " ++ model]
            else []
        | None => []
        end in
      (* Validate size *)
      let errors2 :=
        match p_size params with
        | Some size =>
            if truthy size && negb (JsString.array_includes (c_sizes constraints) size)
            then ["Invalid size " ++ quote_mark ++ size ++ quote_mark ++ " for " ++ model ++
                  ". Valid sizes: " ++ String.concat ", " (c_sizes constraints)]
            else []
        | None => []
        end in
      (* Validate seconds (duration) *)
      let errors3 :=
        match p_seconds params with
        | Some seconds =>
            if negb (number_includes (c_seconds constraints) (secondsNum seconds))
            then ["Invalid duration " ++ quote_mark ++ show_seconds seconds ++ quote_mark ++
                  " for " ++ model ++ ". Valid durations: " ++
                  String.concat ", " (map JsString.ofZ (c_seconds constraints)) ++ " seconds"]
            else []
        | None => []
        end in
      (* Validate quality *)
      let errors4 :=
        match p_quality params with
        | Some quality =>
            if truthy quality && negb (JsString.array_includes (c_quality constraints) quality)
            then ["Invalid quality " ++ quote_mark ++ quality ++ quote_mark ++ " for " ++ model ++
                  ". Valid options: " ++ String.concat ", " (c_quality constraints)]
            else []
        | None => []
        end in
      (* Validate variant (for content download) *)
      let errors5 :=
        match p_variant params with
        | Some variant =>
            if truthy variant && negb (JsString.array_includes (c_variants constraints) variant)
            then ["Invalid variant " ++ quote_mark ++ variant ++ quote_mark ++ " for " ++ model ++
                  ". Valid variants: " ++ String.concat ", " (c_variants constraints)]
            else []
        | None => []
        end in
      let errors := (errors1 ++ errors2 ++ errors3 ++ errors4 ++ errors5)%list in
      inr (mkVideoValidation (List.length errors =? 0)%nat errors)
  end.

(** An object with none of the fields set, as in [{ variant }]. *)
Definition no_params : VideoParams :=
  {| p_prompt := None; p_model := None; p_size := None; p_seconds := None
   ; p_input_reference := None; p_quality := None; p_variant := None |}.

(* ------------------------------------------------------------------ *)
(** ** The other methods of [OpenAIVideoAPI]

    As in [_makeRequest], the endpoint and the payload a method builds do
    not reach the model. *)

Section Methods.
Context {F : FileSystem}.
Variable env : nat -> Suspension.
Variable penv : ProcessEnv.

(** [`Parameter validation failed:\n  - ${validation.errors.join('\n  - ')}`]. *)
Definition validation_failed (validation : VideoValidation) : Thrown :=
  Other ("Parameter validation failed:" ++ line_feed ++ "  - " ++
         String.concat (line_feed ++ "  - ") (errors validation)).

Definition createVideo (params : VideoParams) (this : OpenAIVideoAPI) (w : World)
  : Outcome Video * OpenAIVideoAPI * World :=
  match _verifyApiKey this with
  | Some e => (Throw e, this, w)
  | None =>
      let model := default "sora-2" (p_model params) in
      if negb (truthy_opt (p_prompt params))
      then (Throw (Other "Prompt is required"), this, w)
      else
        (* Validate parameters *)
        match validateVideoParams model params with
        | inl e => (Throw e, this, w)
        | inr validation =>
            if negb (valid validation) then (Throw (validation_failed validation), this, w)
            else
              (* Determine if we need multipart (when input_reference is provided) *)
              match p_input_reference params with
              | Some input_reference =>
                  if truthy input_reference then
                    (* Validate input reference image *)
                    match validateImagePath env input_reference w with
                    | (inl e, w1) => (Throw e, this, w1)
                    | (inr _, w1) => _makeRequest env penv "POST" None this w1
                    end
                  else _makeRequest env penv "POST" None this w
              | None => _makeRequest env penv "POST" None this w
              end
        end
  end.

(** A method whose answer is no job snapshot (a [Buffer], a page, a
    deletion record): the answer is left out. *)
Definition answer_left_out (r : Outcome Video * OpenAIVideoAPI * World)
  : Outcome unit * OpenAIVideoAPI * World :=
  let '(o, this, w) := r in
  (match o with
   | Return _ => Return tt
   | Throw e => Throw e
   | OutOfFuel => OutOfFuel
   end, this, w).

(** [downloadVideoContent(videoId, variant = 'video')]; [None] is a
    [variant] left out. *)
Definition downloadVideoContent (videoId : string) (variant : option string)
    (this : OpenAIVideoAPI) (w : World) : Outcome unit * OpenAIVideoAPI * World :=
  match _verifyApiKey this with
  | Some e => (Throw e, this, w)
  | None =>
      if negb (truthy videoId) then (Throw VideoIdRequired, this, w)
      else
        let variant := default "video" variant in
        (* Validate variant *)
        match validateVideoParams "sora-2"
                {| p_prompt := None; p_model := None; p_size := None; p_seconds := None
                 ; p_input_reference := None; p_quality := None
                 ; p_variant := Some variant |} with
        | inl e => (Throw e, this, w)
        | inr validation =>
            if negb (valid validation)
            then (Throw (Other ("Invalid variant: " ++ variant ++
                                ". Valid options: video, thumbnail, spritesheet")), this, w)
            else answer_left_out (_makeRequest env penv "GET" None this w)
        end
  end.

(** [listVideos(params = {})]. *)
Definition listVideos (this : OpenAIVideoAPI) (w : World)
  : Outcome unit * OpenAIVideoAPI * World :=
  match _verifyApiKey this with
  | Some e => (Throw e, this, w)
  | None => answer_left_out (_makeRequest env penv "GET" None this w)
  end.

Definition deleteVideo (videoId : string) (this : OpenAIVideoAPI) (w : World)
  : Outcome unit * OpenAIVideoAPI * World :=
  match _verifyApiKey this with
  | Some e => (Throw e, this, w)
  | None =>
      if negb (truthy videoId) then (Throw VideoIdRequired, this, w)
      else answer_left_out (_makeRequest env penv "DELETE" None this w)
  end.

Definition remixVideo (videoId prompt : string) (this : OpenAIVideoAPI) (w : World)
  : Outcome Video * OpenAIVideoAPI * World :=
  match _verifyApiKey this with
  | Some e => (Throw e, this, w)
  | None =>
      if negb (truthy videoId) then (Throw VideoIdRequired, this, w)
      else if negb (truthy prompt)
      then (Throw (Other "Prompt is required for remix"), this, w)
      else
        (* Validate prompt length *)
        match validateVideoParams "sora-2"
                {| p_prompt := Some prompt; p_model := None; p_size := None
                 ; p_seconds := None; p_input_reference := None; p_quality := None
                 ; p_variant := None |} with
        | inl e => (Throw e, this, w)
        | inr validation =>
            if negb (valid validation) then (Throw (validation_failed validation), this, w)
            else _makeRequest env penv "POST" None this w
        end
  end.

(** [createAndPoll(params, pollOptions = {})]. *)
Definition createAndPoll (fuel : nat) (params : VideoParams) (pollOptions : PollVideoOptions)
    (this : OpenAIVideoAPI) (w : World) : PollRun OpenAIVideoAPI :=
  match createVideo params this w with
  | (Return video, this1, w1) => waitForVideo env penv fuel (video_id video) pollOptions this1 w1
  | (Throw e, this1, w1) => mkPollRun (Throw e) this1 w1 []
  | (OutOfFuel, this1, w1) => mkPollRun OutOfFuel this1 w1 []
  end.

End Methods.

(** A disk with one readable file. *)
Definition one_file (path : string) (content : list Byte.byte) : FileSystem :=
  {| readFile p :=
       if p =? path then inr content
       else inl {| fs_code := Some "ENOENT"
                 ; fs_message := "ENOENT: no such file or directory" |} |}.

(** The parameters the API documents for the two Sora models. *)
Definition sendable (params : VideoParams) : Prop :=
  (forall prompt, p_prompt params = Some prompt -> Z.of_nat (String.length prompt) <= 10000) /\
  (forall size, p_size params = Some size ->
     size = "" \/ In size ["720x1280"; "1280x720"; "1024x1792"; "1792x1024"]) /\
  (forall seconds, p_seconds params = Some seconds ->
     secondsNum seconds = Some 4 \/ secondsNum seconds = Some 8 \/
     secondsNum seconds = Some 12) /\
  (forall quality, p_quality params = Some quality -> quality = "" \/ quality = "standard") /\
  (forall variant, p_variant params = Some variant ->
     variant = "" \/ In variant ["video"; "thumbnail"; "spritesheet"]).

(** Nothing set beside the prompt, the model and the reference image. *)
Definition bare (params : VideoParams) : Prop :=
  truthy_opt (p_size params) = false /\ p_seconds params = None /\
  truthy_opt (p_quality params) = false /\ truthy_opt (p_variant params) = false.

(** The four signatures [validateImagePath] knows. *)
Definition image_signature (buffer : list Byte.byte) : Prop :=
  (exists rest, buffer = ([Byte.x89; Byte.x50; Byte.x4e; Byte.x47] ++ rest)%list) \/
  (exists rest, buffer = ([Byte.xff; Byte.xd8; Byte.xff] ++ rest)%list) \/
  (exists rest, buffer = (list_byte_of_string "GIF" ++ rest)%list) \/
  (exists head rest, List.length head = 8%nat /\
                     buffer = (head ++ list_byte_of_string "WEBP" ++ rest)%list).

(** [{ prompt }]. *)
Definition prompt_only (prompt : string) : VideoParams :=
  {| p_prompt := Some prompt; p_model := None; p_size := None; p_seconds := None
   ; p_input_reference := None; p_quality := None; p_variant := None |}.

(* ================================================================== *)
(** * Properties *)

(* ------------------------------------------------------------------ *)
(** ** Error classification of the dispatcher *)

Lemma cancelled_first penv error :
  reports_cancellation error = true ->
  _makeRequest_catch penv error = Cancelled.
Proof.
  unfold _makeRequest_catch. intros ->. reflexivity.
Qed.

Lemma sanitize_production penv error st :
  in_production penv = true ->
  _sanitizeErrorMessage penv error st =
  match assoc st genericMessages with
  | Some m => m
  | None => "An error occurred"
  end.
Proof.
  unfold _sanitizeErrorMessage. intros ->. simpl.
  repeat (destruct (_ =? _)%Z; [reflexivity|]). reflexivity.
Qed.

Lemma sanitize_development penv error r m :
  in_production penv = false ->
  err_response error = Some r ->
  data_error_message r = Some m ->
  m <> "" ->
  _sanitizeErrorMessage penv error (status r) = m.
Proof.
  unfold _sanitizeErrorMessage. intros -> -> -> Hm. unfold truthy.
  apply String.eqb_neq in Hm. rewrite Hm. reflexivity.
Qed.

Lemma classify_response penv error r :
  reports_cancellation error = false ->
  err_response error = Some r ->
  let d := _sanitizeErrorMessage penv error (status r) in
  (status r = 401 -> _makeRequest_catch penv error = Unauthorized) /\
  (status r = 400 -> _makeRequest_catch penv error = BadRequest d) /\
  (status r = 404 -> _makeRequest_catch penv error = NotFound d) /\
  (status r = 429 -> _makeRequest_catch penv error = RateLimited) /\
  (status r = 500 \/ status r = 502 \/ status r = 503 ->
   _makeRequest_catch penv error = ServiceUnavailable) /\
  (~ named_status (status r) ->
   _makeRequest_catch penv error = Unclassified (status r) d).
Proof.
  intros Hnc Hr d. unfold _makeRequest_catch.
  rewrite Hnc, Hr. fold d.
  repeat split.
  - intros ->. reflexivity.
  - intros ->. reflexivity.
  - intros ->. reflexivity.
  - intros ->. reflexivity.
  - intros [-> | [-> | ->]]; reflexivity.
  - intros Hother. unfold named_status in Hother.
    repeat match goal with
           | |- context [(?a =? ?b)%Z] => destruct (Z.eqb_spec a b); [exfalso; tauto|]
           end.
    reflexivity.
Qed.

Lemma classify_no_response penv error :
  reports_cancellation error = false ->
  err_response error = None ->
  _makeRequest_catch penv error = Network (err_message error).
Proof.
  intros Hnc Hr. unfold _makeRequest_catch.
  rewrite Hnc, Hr. reflexivity.
Qed.

(** The phrase each status gets in production. *)
Lemma production_phrases penv error :
  in_production penv = true ->
  _sanitizeErrorMessage penv error 400 = "Invalid request parameters" /\
  _sanitizeErrorMessage penv error 401 = "Authentication failed" /\
  _sanitizeErrorMessage penv error 403 = "Access forbidden" /\
  _sanitizeErrorMessage penv error 404 = "Resource not found" /\
  _sanitizeErrorMessage penv error 429 = "Rate limit exceeded" /\
  _sanitizeErrorMessage penv error 500 = "Service error" /\
  _sanitizeErrorMessage penv error 502 = "Service temporarily unavailable" /\
  _sanitizeErrorMessage penv error 503 = "Service temporarily unavailable".
Proof.
  intros Hp. repeat split; rewrite (sanitize_production _ _ _ Hp); reflexivity.
Qed.

(** In production the text of the thrown error is fixed by the status: two
    failures with the same status give the same text, whatever the server
    said. *)
Lemma production_text_fixed penv e1 e2 r1 r2 :
  in_production penv = true ->
  reports_cancellation e1 = false ->
  reports_cancellation e2 = false ->
  err_response e1 = Some r1 ->
  err_response e2 = Some r2 ->
  status r1 = status r2 ->
  error_text (_makeRequest_catch penv e1) = error_text (_makeRequest_catch penv e2).
Proof.
  intros Hp Hc1 Hc2 Hr1 Hr2 Hst. unfold _makeRequest_catch.
  rewrite Hc1, Hc2, Hr1, Hr2. cbv zeta.
  rewrite !(sanitize_production _ _ _ Hp), Hst. reflexivity.
Qed.

(** C1 as stated fails: a failed request without any response is not always
    a Network error. The cancellation test comes first in the [catch], so a
    call the transport reports as cancelled is classified [Cancelled]. *)
Lemma C1_cancelled_is_not_network :
  err_response aborted_call = None /\
  _makeRequest_catch development aborted_call = Cancelled /\
  _makeRequest_catch development aborted_call <> Network (err_message aborted_call).
Proof.
  repeat split. discriminate.
Qed.

(** C1, amended: for every failed request that the transport does not report
    as cancelled, status 401 gives Unauthorized, 400 BadRequest, 404 NotFound,
    429 RateLimited, 500/502/503 ServiceUnavailable, any other status
    Unclassified with that status, and no response at all Network. The detail
    BadRequest, NotFound and Unclassified carry is the sanitized message: in
    production it is a phrase fixed by the status alone (the same for every
    upstream error), in development it is the upstream message when there is
    a non-empty one. *)
Theorem C1_error_classification (penv : ProcessEnv) (error : AxiosError) :
  reports_cancellation error = false ->
  match err_response error with
  | None => _makeRequest_catch penv error = Network (err_message error)
  | Some r =>
      let d := _sanitizeErrorMessage penv error (status r) in
      (status r = 401 -> _makeRequest_catch penv error = Unauthorized) /\
      (status r = 400 -> _makeRequest_catch penv error = BadRequest d) /\
      (status r = 404 -> _makeRequest_catch penv error = NotFound d) /\
      (status r = 429 -> _makeRequest_catch penv error = RateLimited) /\
      (status r = 500 \/ status r = 502 \/ status r = 503 ->
       _makeRequest_catch penv error = ServiceUnavailable) /\
      (~ named_status (status r) ->
       _makeRequest_catch penv error = Unclassified (status r) d) /\
      (in_production penv = true ->
       (forall other, d = _sanitizeErrorMessage penv other (status r)) /\
       (status r = 400 -> d = "Invalid request parameters") /\
       (status r = 401 -> d = "Authentication failed") /\
       (status r = 403 -> d = "Access forbidden") /\
       (status r = 404 -> d = "Resource not found") /\
       (status r = 429 -> d = "Rate limit exceeded") /\
       (status r = 500 -> d = "Service error") /\
       (status r = 502 \/ status r = 503 -> d = "Service temporarily unavailable")) /\
      (in_production penv = false ->
       forall m, data_error_message r = Some m -> m <> "" -> d = m)
  end.
Proof.
  intros Hnc. destruct (err_response error) as [r|] eqn:Hr.
  - destruct (classify_response penv error r Hnc Hr) as (H1 & H2 & H3 & H4 & H5 & H6).
    cbv zeta. repeat apply conj; try assumption.
    + intros Hp. destruct (production_phrases penv error Hp)
        as (P400 & P401 & P403 & P404 & P429 & P500 & P502 & P503).
      repeat apply conj; try (intros ->; assumption).
      * intros other. now rewrite !sanitize_production.
      * intros [-> | ->]; assumption.
    + intros Hd m Hm Hne. exact (sanitize_development penv error r m Hd Hr Hm Hne).
  - exact (classify_no_response penv error Hnc Hr).
Qed.

(** A 400 with a message from the server, classified in development and in
    production. *)
Lemma C1_error_classification_witness :
  reports_cancellation rejected_400 = false /\
  _makeRequest_catch development rejected_400 = BadRequest "Detailed error message" /\
  _makeRequest_catch production rejected_400 = BadRequest "Invalid request parameters".
Proof.
  pose proof (C1_error_classification development rejected_400 eq_refl) as Hdev.
  pose proof (C1_error_classification production rejected_400 eq_refl) as Hprod.
  simpl in Hdev, Hprod.
  destruct Hdev as (_ & Hd & _). destruct Hprod as (_ & Hp & _).
  split; [reflexivity|]. split; [exact (Hd eq_refl) | exact (Hp eq_refl)].
Defined.

(* ------------------------------------------------------------------ *)
(** ** Strings: lengths and bracket stripping *)

Section StringFacts.
Import JsString.

Lemma length_toLowerCase s : String.length (toLowerCase s) = String.length s.
Proof. induction s as [|c t IH]; simpl; congruence. Qed.

Lemma length_substring_from n s :
  String.length (substring_from n s) = (String.length s - n)%nat.
Proof.
  revert s. induction n as [|n IH]; intros [|c t]; simpl; try reflexivity.
  apply IH.
Qed.

Lemma length_strip_open s : (String.length (strip_open s) <= String.length s)%nat.
Proof.
  destruct s as [|c t]; simpl; [lia|].
  destruct (Ascii.eqb_spec c "["%char) as [->|Hne]; simpl; [lia|].
  destruct c as [[] [] [] [] [] [] [] []]; simpl; try lia.
Qed.

Lemma length_strip_close s : (String.length (strip_close s) <= String.length s)%nat.
Proof.
  induction s as [|c t IH]; simpl; [lia|].
  destruct t as [|d u].
  - destruct (Ascii.eqb c "]"); simpl; lia.
  - simpl in *. lia.
Qed.

Lemma length_stripBrackets s : (String.length (stripBrackets s) <= String.length s)%nat.
Proof.
  unfold stripBrackets.
  pose proof (length_strip_close (strip_open s)). pose proof (length_strip_open s). lia.
Qed.

Lemma prefix_length p s : String.prefix p s = true -> (String.length p <= String.length s)%nat.
Proof.
  revert s. induction p as [|c p IH]; intros [|d s] H; simpl in *;
    try lia; try discriminate H.
  revert H. destruct (Ascii.ascii_dec c d); [|intros H; discriminate H].
  intros H. apply IH in H. lia.
Qed.

Lemma prefix_cons a p s :
  String.prefix (String a p) s = true ->
  exists t, s = String a t /\ String.prefix p t = true.
Proof.
  destruct s as [|b t]; simpl; [discriminate|].
  destruct (Ascii.ascii_dec a b) as [->|]; [|discriminate].
  intros H. exists t. split; [reflexivity|assumption].
Qed.

Lemma toLowerCase_cons_inv s a t :
  toLowerCase s = String a t ->
  exists c u, s = String c u /\ lowerChar c = a /\ toLowerCase u = t.
Proof.
  destruct s as [|c u]; simpl; [discriminate|].
  intros H. injection H as Ha Ht. exists c, u. auto.
Qed.

(** A character other than the closing bracket is never what [\]$] removes. *)
Lemma strip_close_cons c s :
  c <> "]"%char -> strip_close (String c s) = String c (strip_close s).
Proof.
  intros Hc. destruct s as [|d u]; [|reflexivity].
  simpl. apply Ascii.eqb_neq in Hc. rewrite Hc. reflexivity.
Qed.

(** A string that does not open with a bracket keeps its first character. *)
Lemma stripBrackets_cons c s :
  c <> "["%char -> c <> "]"%char ->
  stripBrackets (String c s) = String c (strip_close s).
Proof.
  intros Ho Hc. unfold stripBrackets.
  replace (strip_open (String c s)) with (String c s).
  - apply strip_close_cons; assumption.
  - destruct c as [[] [] [] [] [] [] [] []]; try reflexivity. congruence.
Qed.

End StringFacts.

(* ------------------------------------------------------------------ *)
(** ** The two copies of [isBlockedIP] *)

Section BlockedIP.
Import JsString Regex.

Lemma mapped_shrinks ip :
  mapped ip = true ->
  (String.length (substring_from 7 (stripBrackets ip)) < String.length ip)%nat.
Proof.
  unfold mapped, startsWith. intros H.
  apply prefix_length in H. rewrite length_toLowerCase in H. simpl in H.
  rewrite length_substring_from.
  pose proof (length_stripBrackets ip). lia.
Qed.

(** More fuel than the input is long is always enough. *)
Lemma isBlockedIP_fuel_stable k1 : forall k2 ip,
  (String.length ip < k1)%nat -> (String.length ip < k2)%nat ->
  UtilsTs.isBlockedIP_fuel k1 ip = UtilsTs.isBlockedIP_fuel k2 ip.
Proof.
  induction k1 as [|k1 IH]; intros k2 ip H1 H2; [lia|].
  destruct k2 as [|k2]; [lia|].
  cbn [UtilsTs.isBlockedIP_fuel]. fold (mapped ip). cbv zeta.
  destruct (mapped ip) eqn:Hm; [|reflexivity].
  pose proof (mapped_shrinks ip Hm).
  apply IH; lia.
Qed.

(** The TypeScript function satisfies its own recursive equation. *)
Lemma isBlockedIP_ts_unfold ip :
  UtilsTs.isBlockedIP ip =
  let cleanIP := stripBrackets ip in
  if mapped ip then UtilsTs.isBlockedIP (substring_from 7 cleanIP)
  else if (cleanIP =? "localhost") || (cleanIP =? "127.0.0.1") || (cleanIP =? "::1")
  then true
  else if array_includes UtilsTs.blockedHosts cleanIP then true
  else existsb (fun pattern => test pattern cleanIP) UtilsTs.blockedPatterns.
Proof.
  unfold UtilsTs.isBlockedIP at 1.
  cbn [UtilsTs.isBlockedIP_fuel]. fold (mapped ip). cbv zeta.
  destruct (mapped ip) eqn:Hm; [|reflexivity].
  pose proof (mapped_shrinks ip Hm).
  unfold UtilsTs.isBlockedIP. apply isBlockedIP_fuel_stable; lia.
Qed.

(** Off the mapped prefix the TypeScript copy runs the legacy body. *)
Lemma unmapped_agree ip :
  mapped ip = false -> UtilsTs.isBlockedIP ip = UtilsJs.isBlockedIP ip.
Proof.
  intros Hm. rewrite isBlockedIP_ts_unfold, Hm. reflexivity.
Qed.

(** The legacy copy never blocks a mapped address. *)
Lemma legacy_ignores_mapped ip :
  mapped ip = true -> UtilsJs.isBlockedIP ip = false.
Proof.
  unfold mapped, startsWith, UtilsJs.isBlockedIP. cbv zeta.
  generalize (stripBrackets ip). intros s H.
  apply prefix_cons in H. destruct H as (t0 & E & H).
  apply toLowerCase_cons_inv in E. destruct E as (c0 & s0 & -> & E0 & <-).
  apply prefix_cons in H. destruct H as (t1 & E & H).
  apply toLowerCase_cons_inv in E. destruct E as (c1 & s1 & -> & E1 & <-).
  apply prefix_cons in H. destruct H as (t2 & E & _).
  apply toLowerCase_cons_inv in E. destruct E as (c2 & s2 & -> & E2 & _).
  assert (H0 : c0 = ":"%char).
  { destruct c0 as [[] [] [] [] [] [] [] []]; vm_compute in E0; congruence. }
  assert (H1 : c1 = ":"%char).
  { destruct c1 as [[] [] [] [] [] [] [] []]; vm_compute in E1; congruence. }
  assert (H2 : c2 = "f"%char \/ c2 = "F"%char).
  { destruct c2 as [[] [] [] [] [] [] [] []]; vm_compute in E2;
      try congruence; auto. }
  subst c0 c1. destruct H2 as [-> | ->]; reflexivity.
Qed.

End BlockedIP.

(** C2 fails, by a defect of the legacy copy: on an IPv4-mapped address the
    TypeScript copy answers for the embedded address, as its comment says
    and its tests ask, and the legacy copy in utils.js does not look inside. *)
Lemma C2_copies_differ :
  UtilsJs.isBlockedIP "::ffff:10.0.0.1" = false /\
  UtilsTs.isBlockedIP "::ffff:10.0.0.1" = true.
Proof.
  split; reflexivity.
Qed.

(** Everywhere else the two copies agree: they return the same boolean on
    every input that, once its brackets are stripped, does not start with
    [::ffff:] in any letter case. *)
Theorem C2_copies_agree_off_mapped (ip : string) :
  mapped ip = false -> UtilsTs.isBlockedIP ip = UtilsJs.isBlockedIP ip.
Proof.
  intros Hm. rewrite isBlockedIP_ts_unfold, Hm. reflexivity.
Qed.

(** A bracketed link-local literal: both copies strip the brackets and block. *)
Lemma C2_copies_agree_off_mapped_witness :
  mapped "[fe80::1]" = false /\
  UtilsTs.isBlockedIP "[fe80::1]" = UtilsJs.isBlockedIP "[fe80::1]".
Proof.
  split; [reflexivity | apply (C2_copies_agree_off_mapped "[fe80::1]"); reflexivity].
Defined.

(* ------------------------------------------------------------------ *)
(** ** Dotted IPv4 text and the ranges the patterns cover *)

Section Ranges.
Import JsString Regex.

Lemma dotted_prefix a :
  in_blocked_range a = true ->
  exists p rest, In p range_prefixes /\ dotted a = p ++ rest.
Proof.
  destruct a as [a b c d]. unfold in_blocked_range, dotted. cbn [o1 o2 o3 o4].
  set (tail := ofN c ++ "." ++ ofN d).
  intros H.
  repeat (apply orb_true_iff in H; destruct H as [H|H]).
  - apply N.eqb_eq in H. subst a.
    exists "127.", (ofN b ++ "." ++ tail). split; [simpl; tauto|reflexivity].
  - apply N.eqb_eq in H. subst a.
    exists "10.", (ofN b ++ "." ++ tail). split; [simpl; tauto|reflexivity].
  - apply andb_true_iff in H. destruct H as [H Hhi].
    apply andb_true_iff in H. destruct H as [Ha Hlo].
    apply N.eqb_eq in Ha. apply N.leb_le in Hlo, Hhi. subst a.
    assert (Hb : In b [16; 17; 18; 19; 20; 21; 22; 23; 24; 25; 26; 27; 28; 29; 30; 31]%N).
    { assert (Hn : (N.to_nat b - 16 < 16)%nat) by lia.
      replace b with (N.of_nat (16 + (N.to_nat b - 16))) by lia.
      revert Hn. generalize (N.to_nat b - 16)%nat. intros n Hn.
      do 16 (destruct n as [|n]; [simpl; tauto|]). lia. }
    simpl in Hb.
    exists ("172." ++ ofN b ++ "."), tail.
    repeat (destruct Hb as [Hb|Hb];
            [subst b; split; [vm_compute; tauto | reflexivity]|]).
    contradiction.
  - apply andb_true_iff in H. destruct H as [Ha Hb].
    apply N.eqb_eq in Ha, Hb. subst a b.
    exists "192.168.", tail. split; [simpl; tauto|reflexivity].
  - apply andb_true_iff in H. destruct H as [Ha Hb].
    apply N.eqb_eq in Ha, Hb. subst a b.
    exists "169.254.", tail. split; [simpl; tauto|reflexivity].
  - apply N.eqb_eq in H. subst a.
    exists "0.", (ofN b ++ "." ++ tail). split; [simpl; tauto|reflexivity].
Qed.

End Ranges.

Section RangeBlocking.
Import JsString Regex.

Ltac each_prefix H :=
  unfold range_prefixes in H; simpl in H;
  repeat (destruct H as [H|H]; [subst|]); [..|contradiction].

Lemma stripBrackets_range_prefix p r :
  In p range_prefixes -> stripBrackets (p ++ r) = p ++ strip_close r.
Proof.
  intros H. each_prefix H; cbn [append];
    (rewrite stripBrackets_cons by discriminate);
    repeat (rewrite strip_close_cons by discriminate); reflexivity.
Qed.

Lemma range_prefix_hits p r :
  In p range_prefixes ->
  existsb (fun pattern => test pattern (p ++ r)) UtilsJs.blockedPatterns = true.
Proof.
  intros H. each_prefix H; vm_compute; reflexivity.
Qed.

Lemma range_prefix_unmapped p r :
  In p range_prefixes -> mapped (p ++ r) = false.
Proof.
  intros H. unfold mapped. rewrite (stripBrackets_range_prefix p r H).
  each_prefix H; vm_compute; reflexivity.
Qed.

(** Once a pattern matches the cleaned text, the legacy copy blocks. *)
Lemma legacy_pattern_blocks ip :
  existsb (fun pattern => test pattern (stripBrackets ip)) UtilsJs.blockedPatterns = true ->
  UtilsJs.isBlockedIP ip = true.
Proof.
  unfold UtilsJs.isBlockedIP. cbv zeta. intros ->.
  destruct (_ || _); [reflexivity|].
  destruct (array_includes _ _); reflexivity.
Qed.

Lemma range_prefix_blocked_js p r :
  In p range_prefixes -> UtilsJs.isBlockedIP (p ++ r) = true.
Proof.
  intros H. apply legacy_pattern_blocks.
  rewrite (stripBrackets_range_prefix p r H). apply range_prefix_hits, H.
Qed.

Lemma range_prefix_blocked_ts p r :
  In p range_prefixes -> UtilsTs.isBlockedIP (p ++ r) = true.
Proof.
  intros H. rewrite unmapped_agree by (apply range_prefix_unmapped, H).
  apply range_prefix_blocked_js, H.
Qed.

(** Every dotted IPv4 address of the five private, loopback and link-local
    ranges, and of 0.0.0.0/8, is blocked by both copies. *)
Lemma ipv4_ranges_blocked a :
  in_blocked_range a = true ->
  UtilsJs.isBlockedIP (dotted a) = true /\ UtilsTs.isBlockedIP (dotted a) = true.
Proof.
  intros H. destruct (dotted_prefix a H) as (p & rest & Hp & ->).
  split; [apply range_prefix_blocked_js | apply range_prefix_blocked_ts]; exact Hp.
Qed.

Lemma prefix_app p s : String.prefix p (p ++ s) = true.
Proof.
  induction p as [|c p IH]; simpl.
  - destruct s; reflexivity.
  - destruct (Ascii.ascii_dec c c); [exact IH|congruence].
Qed.

Lemma toLowerCase_app a b : toLowerCase (a ++ b) = toLowerCase a ++ toLowerCase b.
Proof.
  induction a as [|c a IH]; simpl; [reflexivity|]. now rewrite IH.
Qed.

Lemma stripBrackets_mapped v :
  stripBrackets ("::ffff:" ++ v) = "::ffff:" ++ strip_close v.
Proof.
  cbn [append]. rewrite stripBrackets_cons by discriminate.
  repeat (rewrite strip_close_cons by discriminate). reflexivity.
Qed.

Lemma mapped_literal v : mapped ("::ffff:" ++ v) = true.
Proof.
  unfold mapped, startsWith. rewrite stripBrackets_mapped, toLowerCase_app.
  change (toLowerCase "::ffff:") with "::ffff:". apply prefix_app.
Qed.

(** The TypeScript copy looks through the mapped prefix. *)
Lemma ts_unwraps v :
  UtilsTs.isBlockedIP ("::ffff:" ++ v) = UtilsTs.isBlockedIP (strip_close v).
Proof.
  rewrite isBlockedIP_ts_unfold, mapped_literal. cbv zeta.
  rewrite stripBrackets_mapped. reflexivity.
Qed.

Lemma strip_close_range_prefix p r :
  In p range_prefixes -> strip_close (p ++ r) = p ++ strip_close r.
Proof.
  intros H. each_prefix H; cbn [append];
    repeat (rewrite strip_close_cons by discriminate); reflexivity.
Qed.

(** The TypeScript copy blocks a mapped literal whose embedded address lies
    in a blocked IPv4 range; the legacy copy blocks no mapped literal. *)
Lemma mapped_range_ts_blocks_js_does_not p r :
  In p range_prefixes ->
  UtilsTs.isBlockedIP ("::ffff:" ++ p ++ r) = true /\
  UtilsJs.isBlockedIP ("::ffff:" ++ p ++ r) = false.
Proof.
  intros H. split.
  - rewrite ts_unwraps, (strip_close_range_prefix p r H).
    apply range_prefix_blocked_ts, H.
  - apply legacy_ignores_mapped, mapped_literal.
Qed.

End RangeBlocking.

(* ------------------------------------------------------------------ *)
(** ** [validateImageUrl] on literal and resolved addresses *)

Section ValidateFacts.
Import JsString.
Context {P : Platform}.

Lemma mapped_not_a_blocked_name v :
  array_includes ["localhost"; "metadata.google.internal"; "metadata"] ("::ffff:" ++ v) = false.
Proof. reflexivity. Qed.

(** A domain that resolves to an IPv4-mapped address of a blocked range:
    the TypeScript copy unwraps the address and refuses, the legacy copy
    tests the whole text and accepts. *)
Lemma resolved_mapped_splits_the_copies url domain a :
  https_host url domain ->
  resolves_to domain ("::ffff:" ++ dotted a) ->
  in_blocked_range a = true ->
  validateImageUrl_js url = inr url /\
  validateImageUrl_ts url = inl (DnsRebindingDetected (toLowerCase domain)).
Proof.
  intros (parsed & Hp & Hs & Hh) (Hname & Hip & Hl) Ha. subst domain.
  destruct (dotted_prefix a Ha) as (p & r & Hin & Hd). rewrite Hd in Hl.
  destruct (mapped_range_ts_blocks_js_does_not p r Hin) as [Hts Hjs].
  unfold validateImageUrl_js, validateImageUrl_ts, validateImageUrl_with.
  rewrite Hp, Hs. cbv zeta. rewrite Hname, Hip, Hl, Hts, Hjs. split; reflexivity.
Qed.

(** A literal host as the parser hands it over, [::ffff:] and two
    hexadecimal groups: no pattern of either copy matches the text, and
    there is nothing of an IPv4 address left in it for the TypeScript copy to
    unwrap. *)
Lemma literal_mapped_is_accepted url a :
  https_host url ("[" ++ mapped_hex a ++ "]") ->
  In a tested_addresses ->
  isIPv6 (mapped_hex a) = true ->
  validateImageUrl_js url = inr url /\ validateImageUrl_ts url = inr url.
Proof.
  intros (parsed & Hp & Hs & Hh) Hin H6.
  unfold validateImageUrl_js, validateImageUrl_ts, validateImageUrl_with.
  rewrite Hp, Hs, Hh. cbv zeta.
  unfold tested_addresses in Hin. cbn [In] in Hin.
  destruct Hin as [<-|[<-|[<-|[<-|[]]]]].
  - change (stripBrackets (toLowerCase ("[" ++ mapped_hex (mkIPv4 10 0 0 1) ++ "]")))
      with (mapped_hex (mkIPv4 10 0 0 1)).
    rewrite H6, orb_true_r. split; reflexivity.
  - change (stripBrackets (toLowerCase ("[" ++ mapped_hex (mkIPv4 192 168 1 1) ++ "]")))
      with (mapped_hex (mkIPv4 192 168 1 1)).
    rewrite H6, orb_true_r. split; reflexivity.
  - change (stripBrackets (toLowerCase ("[" ++ mapped_hex (mkIPv4 172 16 0 1) ++ "]")))
      with (mapped_hex (mkIPv4 172 16 0 1)).
    rewrite H6, orb_true_r. split; reflexivity.
  - change (stripBrackets (toLowerCase ("[" ++ mapped_hex (mkIPv4 169 254 169 254) ++ "]")))
      with (mapped_hex (mkIPv4 169 254 169 254)).
    rewrite H6, orb_true_r. split; reflexivity.
Qed.

(** A literal IPv4 host of a blocked range is rejected by both copies. *)
Lemma validate_rejects_blocked_ipv4 url parsed a :
  parseURL url = Some parsed ->
  protocol parsed = "https:" ->
  stripBrackets (toLowerCase (hostname parsed)) = dotted a ->
  isIPv4 (dotted a) = true ->
  in_blocked_range a = true ->
  validateImageUrl_js url = inl BlockedLiteralIP /\
  validateImageUrl_ts url = inl BlockedLiteralIP.
Proof.
  intros Hp Hs Hh H4 Ha.
  destruct (ipv4_ranges_blocked a Ha) as [Hjs Hts].
  assert (Hname : array_includes ["localhost"; "metadata.google.internal"; "metadata"]
                    (dotted a) = false).
  { destruct (dotted_prefix a Ha) as (p & rest & Hin & ->).
    unfold range_prefixes in Hin. simpl in Hin.
    repeat (destruct Hin as [Hin|Hin]; [subst; reflexivity|]). contradiction. }
  unfold validateImageUrl_js, validateImageUrl_ts, validateImageUrl_with.
  rewrite Hp, Hs. cbv zeta. rewrite Hh, Hname, H4, Hjs, Hts. split; reflexivity.
Qed.

(** A domain that resolves into a blocked IPv4 range is rejected by both. *)
Lemma validate_rejects_resolved_ipv4 url parsed a :
  parseURL url = Some parsed ->
  protocol parsed = "https:" ->
  let host := toLowerCase (hostname parsed) in
  array_includes ["localhost"; "metadata.google.internal"; "metadata"]
    (stripBrackets host) = false ->
  isIPv4 (stripBrackets host) || isIPv6 (stripBrackets host) = false ->
  lookup host = inr (dotted a) ->
  in_blocked_range a = true ->
  validateImageUrl_js url = inl (DnsRebindingDetected host) /\
  validateImageUrl_ts url = inl (DnsRebindingDetected host).
Proof.
  intros Hp Hs host Hname Hip Hl Ha.
  destruct (ipv4_ranges_blocked a Ha) as [Hjs Hts].
  unfold validateImageUrl_js, validateImageUrl_ts, validateImageUrl_with.
  rewrite Hp, Hs. cbv zeta. fold host. rewrite Hname, Hip, Hl, Hjs, Hts.
  split; reflexivity.
Qed.

End ValidateFacts.

(** C3 fails in the code, in two ways. (1) A literal host: the URL parser
    hands [[::ffff:10.0.0.1]] over as [[::ffff:a00:1]], the embedded address
    in two hexadecimal groups. The unwrapping of the TypeScript copy leaves
    [a00:1], which no pattern matches, and the legacy copy has no unwrapping:
    both copies accept the URL, for each of the four addresses the tests
    list. (2) A domain that resolves to [::ffff:a.b.c.d] with [a.b.c.d] in a
    blocked range: here the text is dotted, the TypeScript copy unwraps it
    and refuses, and the legacy copy in utils.js, with no such branch,
    accepts. *)
Theorem C3_mapped_addresses_are_accepted (P : Platform)
    (literal_url resolved_url domain : string) (a b : IPv4) :
  https_host literal_url ("[" ++ mapped_hex a ++ "]") ->
  In a tested_addresses ->
  isIPv6 (mapped_hex a) = true ->
  https_host resolved_url domain ->
  resolves_to domain ("::ffff:" ++ dotted b) ->
  in_blocked_range b = true ->
  (validateImageUrl_js literal_url = inr literal_url /\
   validateImageUrl_ts literal_url = inr literal_url) /\
  (validateImageUrl_js resolved_url = inr resolved_url /\
   validateImageUrl_ts resolved_url =
     inl (DnsRebindingDetected (JsString.toLowerCase domain))) /\
  (UtilsJs.isBlockedIP ("::ffff:" ++ dotted b) = false /\
   UtilsTs.isBlockedIP ("::ffff:" ++ dotted b) = true) /\
  map mapped_hex tested_addresses =
    ["::ffff:a00:1"; "::ffff:c0a8:101"; "::ffff:ac10:1"; "::ffff:a9fe:a9fe"].
Proof.
  intros Hlit Hin H6 Hres Hdns Hb.
  split; [exact (literal_mapped_is_accepted literal_url a Hlit Hin H6)|].
  split; [exact (resolved_mapped_splits_the_copies resolved_url domain b Hres Hdns Hb)|].
  split; [|reflexivity].
  destruct (dotted_prefix b Hb) as (p & r & Hp & ->).
  destruct (mapped_range_ts_blocks_js_does_not p r Hp) as [Hts Hjs].
  split; assumption.
Qed.

(** The two failing URLs: the literal host [[::ffff:10.0.0.1]], and
    [evil.com] resolving to [::ffff:10.0.0.1] as in the tests of the
    TypeScript copy. *)
Lemma C3_mapped_addresses_are_accepted_witness :
  hostname_of (Fixture.parse "https://[::ffff:10.0.0.1]/image.png") = Some "[::ffff:a00:1]" /\
  validateImageUrl_js (P := Fixture.node ("evil.com", "::ffff:10.0.0.1"))
    "https://[::ffff:10.0.0.1]/image.png" = inr "https://[::ffff:10.0.0.1]/image.png" /\
  validateImageUrl_ts (P := Fixture.node ("evil.com", "::ffff:10.0.0.1"))
    "https://[::ffff:10.0.0.1]/image.png" = inr "https://[::ffff:10.0.0.1]/image.png" /\
  validateImageUrl_js (P := Fixture.node ("evil.com", "::ffff:10.0.0.1"))
    "https://evil.com/image.jpg" = inr "https://evil.com/image.jpg" /\
  validateImageUrl_ts (P := Fixture.node ("evil.com", "::ffff:10.0.0.1"))
    "https://evil.com/image.jpg" = inl (DnsRebindingDetected "evil.com").
Proof.
  split; [reflexivity|].
  destruct (C3_mapped_addresses_are_accepted (Fixture.node ("evil.com", "::ffff:10.0.0.1"))
              "https://[::ffff:10.0.0.1]/image.png" "https://evil.com/image.jpg" "evil.com"
              (mkIPv4 10 0 0 1) (mkIPv4 10 0 0 1))
    as ((H1 & H2) & (H3 & H4) & _).
  - eexists. split; [reflexivity|]. split; reflexivity.
  - left. reflexivity.
  - reflexivity.
  - eexists. split; [reflexivity|]. split; reflexivity.
  - repeat split; reflexivity.
  - reflexivity.
  - repeat split; assumption.
Defined.

(* ------------------------------------------------------------------ *)
(** ** The IPv6 ranges *)

Section IPv6Ranges.
Import JsString Regex.

(** What the three IPv6 prefix patterns and the loopback pattern do block:
    text whose first group is literally fe80, fc00 or fd00, and [::1]. *)
Lemma ipv6_literal_groups_blocked r :
  UtilsJs.isBlockedIP ("fe80:" ++ r) = true /\ UtilsTs.isBlockedIP ("fe80:" ++ r) = true /\
  UtilsJs.isBlockedIP ("fc00:" ++ r) = true /\ UtilsTs.isBlockedIP ("fc00:" ++ r) = true /\
  UtilsJs.isBlockedIP ("fd00:" ++ r) = true /\ UtilsTs.isBlockedIP ("fd00:" ++ r) = true /\
  UtilsJs.isBlockedIP "::1" = true /\ UtilsTs.isBlockedIP "::1" = true /\
  UtilsJs.isBlockedIP "[::1]" = true /\ UtilsTs.isBlockedIP "[::1]" = true.
Proof.
  assert (Hclean : forall p, In p ["fe80:"; "fc00:"; "fd00:"] ->
                   stripBrackets (p ++ r) = p ++ strip_close r).
  { intros p Hp. simpl in Hp.
    repeat (destruct Hp as [Hp|Hp]; [subst|]); [..|contradiction];
      cbn [append]; (rewrite stripBrackets_cons by discriminate);
      repeat (rewrite strip_close_cons by discriminate); reflexivity. }
  assert (Hjs : forall p, In p ["fe80:"; "fc00:"; "fd00:"] ->
                UtilsJs.isBlockedIP (p ++ r) = true).
  { intros p Hp. apply legacy_pattern_blocks. rewrite (Hclean p Hp). simpl in Hp.
    repeat (destruct Hp as [Hp|Hp]; [subst; vm_compute; reflexivity|]). contradiction. }
  assert (Hts : forall p, In p ["fe80:"; "fc00:"; "fd00:"] ->
                UtilsTs.isBlockedIP (p ++ r) = true).
  { intros p Hp. rewrite unmapped_agree; [apply Hjs, Hp|].
    unfold mapped. rewrite (Hclean p Hp). simpl in Hp.
    repeat (destruct Hp as [Hp|Hp]; [subst; vm_compute; reflexivity|]). contradiction. }
  repeat split; try reflexivity; first [apply Hjs | apply Hts]; simpl; tauto.
Qed.

End IPv6Ranges.

(** C4 at the failing inputs. Unique-local and link-local addresses whose
    first group is not literally fc00, fd00 or fe80 lie in fc00::/7 and
    fe80::/10 and pass both copies of the predicate; as literal hosts they
    pass [validateImageUrl]. *)
Theorem C4_ipv6_ranges_not_covered :
  in_fc00_7 "fd12:3456:789a::1" = true /\
  UtilsJs.isBlockedIP "fd12:3456:789a::1" = false /\
  UtilsTs.isBlockedIP "fd12:3456:789a::1" = false /\
  in_fc00_7 "fc01::1" = true /\
  UtilsJs.isBlockedIP "fc01::1" = false /\
  UtilsTs.isBlockedIP "fc01::1" = false /\
  in_fe80_10 "fe90::1" = true /\
  UtilsJs.isBlockedIP "fe90::1" = false /\
  UtilsTs.isBlockedIP "fe90::1" = false /\
  validateImageUrl_js (P := Fixture.node ("", "")) "https://[fd12:3456:789a::1]/image.png"
    = inr "https://[fd12:3456:789a::1]/image.png" /\
  validateImageUrl_ts (P := Fixture.node ("", "")) "https://[fd12:3456:789a::1]/image.png"
    = inr "https://[fd12:3456:789a::1]/image.png" /\
  validateImageUrl_ts (P := Fixture.node ("intranet.example", "fd12:3456:789a::1"))
    "https://intranet.example/image.png" = inr "https://intranet.example/image.png".
Proof.
  repeat split; vm_compute; reflexivity.
Qed.

(* ------------------------------------------------------------------ *)
(** ** Credential redaction *)

Section Redaction.
Import JsString.

Lemma substring_from_splits n s :
  exists front, s = front ++ substring_from n s /\
                String.length front = Nat.min n (String.length s).
Proof.
  revert s. induction n as [|n IH]; intros s.
  - exists "". split; reflexivity.
  - destruct s as [|c t].
    + exists "". split; reflexivity.
    + destruct (IH t) as (front & Ht & Hlen).
      exists (String c front). simpl. split; [congruence|].
      now rewrite Hlen.
Qed.

Lemma slice_last_length n s :
  (n <= String.length s)%nat -> String.length (slice_last n s) = n.
Proof.
  intros H. unfold slice_last. rewrite length_substring_from. lia.
Qed.

Lemma redact_long k :
  (8 <= String.length k)%nat ->
  _redactApiKey (Some k) = "sk-..." ++ slice_last 4 k.
Proof.
  intros H. unfold _redactApiKey, truthy.
  destruct k as [|c t]; [simpl in H; lia|].
  change (String c t =? "") with false. cbn [negb orb].
  destruct (Nat.ltb_spec (String.length (String c t)) 8); [lia|reflexivity].
Qed.

Lemma redact_short k :
  (String.length k < 8)%nat -> _redactApiKey (Some k) = "[REDACTED]".
Proof.
  intros H. unfold _redactApiKey.
  destruct (Nat.ltb_spec (String.length k) 8); [|lia].
  rewrite orb_true_r. reflexivity.
Qed.

End Redaction.

(** C7: a credential shorter than 8 characters redacts to the placeholder
    [[REDACTED]], whatever it is; one of 8 characters or more redacts to the
    prefix [sk-...] followed by exactly its last 4 characters, and the result
    depends on nothing else of the credential: two credentials with the same
    last 4 characters redact to the same text. *)
Theorem C7_redaction (k : string) :
  ((String.length k < 8)%nat -> _redactApiKey (Some k) = "[REDACTED]") /\
  ((8 <= String.length k)%nat ->
   let tail := JsString.slice_last 4 k in
   _redactApiKey (Some k) = "sk-..." ++ tail /\
   String.length tail = 4%nat /\
   (exists front, k = front ++ tail /\ String.length front = (String.length k - 4)%nat) /\
   (forall k', (8 <= String.length k')%nat -> JsString.slice_last 4 k' = tail ->
               _redactApiKey (Some k') = _redactApiKey (Some k))).
Proof.
  split; [apply redact_short|].
  intros H tail. repeat split.
  - apply redact_long, H.
  - apply slice_last_length. lia.
  - destruct (substring_from_splits (String.length k - 4) k) as (front & Hk & Hlen).
    exists front. split; [exact Hk|]. rewrite Hlen. lia.
  - intros k' H' Htail. rewrite (redact_long k' H'), (redact_long k H), Htail. reflexivity.
Qed.

(** The two keys of the test suite. *)
Lemma C7_redaction_witness :
  _redactApiKey (Some "sk-test1234567890") = "sk-...7890" /\
  _redactApiKey (Some "sk-test") = "[REDACTED]".
Proof.
  split.
  - destruct (C7_redaction "sk-test1234567890") as [_ H].
    destruct (H ltac:(simpl; lia)) as [E _]. exact E.
  - destruct (C7_redaction "sk-test") as [H _]. apply H. simpl. lia.
Defined.

(* ------------------------------------------------------------------ *)
(** ** Construction *)

(** C9 as stated fails: the guard is [baseUrl && !baseUrl.startsWith(...)],
    so an empty base address, which does not begin with [https://], is not
    rejected and the instance holds it. *)
Lemma C9_empty_base_accepted :
  JsString.startsWith "" "https://" = false /\
  constructor development
    {| opt_apiKey := Some "sk-test123"; opt_baseUrl := Some ""; opt_rateLimitDelay := None |}
  = inr {| apiKey := "sk-test123"; baseUrl := ""; rateLimitDelay := 1000; lastRequestTime := 0 |}.
Proof.
  split; reflexivity.
Qed.

(** C9, amended: for every non-empty base address that does not begin with
    [https://] the constructor throws, so every instance holds a base address
    that is empty or begins with [https://]. *)
Theorem C9_insecure_base_rejected (penv : ProcessEnv) (o : ConstructorOptions) (b : string) :
  opt_baseUrl o = Some b ->
  truthy b = true ->
  JsString.startsWith b "https://" = false ->
  constructor penv o = inl InsecureBaseUrl /\
  (forall o' this, constructor penv o' = inr this ->
     baseUrl this = "" \/ JsString.startsWith (baseUrl this) "https://" = true).
Proof.
  intros Hb Ht Hs. split.
  - unfold constructor. rewrite Hb. cbn [default]. rewrite Ht, Hs. reflexivity.
  - intros o' this. unfold constructor.
    destruct (truthy (default BASE_URL (opt_baseUrl o'))) eqn:Et;
      destruct (JsString.startsWith (default BASE_URL (opt_baseUrl o')) "https://") eqn:Es;
      cbn [andb negb]; try discriminate;
      destruct (if truthy_opt (opt_apiKey o') then opt_apiKey o' else getOpenAIApiKey penv);
      try discriminate; intros H; injection H as <-; cbn [baseUrl]; auto.
    left. unfold truthy in Et. apply negb_false_iff, String.eqb_eq in Et. exact Et.
Qed.

(** The plain-HTTP base address of the test suite. *)
Lemma C9_insecure_base_rejected_witness :
  truthy "http://api.openai.com" = true /\
  JsString.startsWith "http://api.openai.com" "https://" = false /\
  constructor development
    {| opt_apiKey := Some "sk-test123"; opt_baseUrl := Some "http://api.openai.com";
       opt_rateLimitDelay := None |} = inl InsecureBaseUrl.
Proof.
  split; [reflexivity|]. split; [reflexivity|].
  apply (C9_insecure_base_rejected development _ "http://api.openai.com");
    reflexivity.
Defined.

(* ------------------------------------------------------------------ *)
(** ** Pacing *)

Section Pacing.
Variable env : nat -> Suspension.
Variable penv : ProcessEnv.

(** A timer runs for 1 ms at least, and for the delay asked when that is
    an integer from 1 to [TIMEOUT_MAX]. *)
Lemma timer_delay_range ms : 1 <= timer_delay ms <= TIMEOUT_MAX.
Proof.
  unfold timer_delay, TIMEOUT_MAX.
  destruct (Z.leb_spec 1 ms); destruct (Z.leb_spec ms 2147483647); cbn [andb]; lia.
Qed.

Lemma timer_delay_covers ms : ms <= TIMEOUT_MAX -> ms <= timer_delay ms.
Proof.
  unfold timer_delay, TIMEOUT_MAX.
  destruct (Z.leb_spec 1 ms); destruct (Z.leb_spec ms 2147483647); cbn [andb]; lia.
Qed.

Lemma truncate_nonneg x : 0 <= Double.truncate x.
Proof.
  unfold Double.truncate.
  destruct (Floats.FloatOps.Prim2SF x) as [| | |sign m e]; try lia.
  destruct (Z.leb_spec 0 e) as [Hpos|Hneg].
  - apply Z.mul_nonneg_nonneg; [lia|]. apply Z.pow_nonneg. lia.
  - apply Z.div_pos; [lia|]. apply Z.pow_pos_nonneg; lia.
Qed.

Lemma pause_timer_nonneg interval : 0 <= pause_timer interval.
Proof.
  unfold pause_timer. destruct (_ || _); [lia|]. cbv zeta.
  destruct (Double.in_timer_range _); [apply truncate_nonneg|lia].
Qed.

(** The timers of the intervals that occur below: the default, the one of
    the timeout test, one that loses a millisecond to the two roundings and
    one above [TIMEOUT_MAX]. *)
Lemma pause_timer_values :
  pause_timer 10000 = 10000 /\ pause_timer 100 = 100 /\
  pause_timer 1001 = 1000 /\ pause_timer 3000000000 = 1.
Proof. repeat split; vm_compute; reflexivity. Qed.

Lemma timer_fires_clock d w : 0 <= d -> clock w + d <= clock (timer_fires env d w).
Proof. intros Hd. unfold timer_fires. cbn [clock]. lia. Qed.

Lemma await_timeout_clock ms w : clock w <= clock (await_timeout env ms w).
Proof.
  unfold await_timeout. pose proof (timer_delay_range ms).
  pose proof (timer_fires_clock (timer_delay ms) w). lia.
Qed.

Lemma await_timeout_sleeps ms w :
  ms <= TIMEOUT_MAX -> clock w + ms <= clock (await_timeout env ms w).
Proof.
  intros Hms. unfold await_timeout. pose proof (timer_delay_range ms).
  pose proof (timer_delay_covers ms Hms).
  pose proof (timer_fires_clock (timer_delay ms) w). lia.
Qed.

Lemma pause_ms_clock interval w : clock w <= clock (pause_ms env interval w).
Proof.
  unfold pause_ms. pose proof (pause_timer_nonneg interval).
  pose proof (timer_fires_clock (pause_timer interval) w). lia.
Qed.

Lemma pause_ms_sleeps interval w :
  clock w + pause_timer interval <= clock (pause_ms env interval w).
Proof. unfold pause_ms. apply timer_fires_clock, pause_timer_nonneg. Qed.

Lemma await_transport_clock w : clock w <= clock (snd (await_transport env w)).
Proof. unfold await_transport. cbn [snd clock]. lia. Qed.

Lemma pace_stamps this w :
  lastRequestTime (fst (pace env this w)) = clock (snd (pace env this w)) /\
  clock w <= clock (snd (pace env this w)).
Proof.
  unfold pace. cbn [fst snd set_lastRequestTime lastRequestTime].
  split; [reflexivity|].
  destruct (pacing_delay this w); [apply await_timeout_clock|lia].
Qed.

(** One [_makeRequest]: the value it writes is at least the value stored
    before, and it is again not ahead of the clock. *)
Lemma makeRequest_monotone method signal this w :
  stamped_in_past this w ->
  let '(_, this', w') := _makeRequest env penv method signal this w in
  lastRequestTime this <= lastRequestTime this' /\ stamped_in_past this' w'.
Proof.
  unfold stamped_in_past, _makeRequest. intros Hinv.
  destruct (pace_stamps this w) as [Hst Hclk].
  destruct (pace env this w) as [this1 w1]. cbn [fst snd] in Hst, Hclk.
  destruct ((_ =? "GET") || _ || _).
  - pose proof (await_transport_clock w1) as Ht.
    destruct (await_transport env w1) as [r w2]. cbn [snd] in Ht.
    destruct r; split; lia.
  - split; lia.
Qed.

Lemma retrieveVideo_monotone videoId signal this w :
  stamped_in_past this w ->
  let '(_, this', w') := OpenAIVideoAPI_retrieveVideo env penv videoId signal this w in
  lastRequestTime this <= lastRequestTime this' /\ stamped_in_past this' w'.
Proof.
  intros Hinv. unfold OpenAIVideoAPI_retrieveVideo.
  destruct (_verifyApiKey this); [split; [lia|exact Hinv]|].
  destruct (negb (truthy videoId)); [split; [lia|exact Hinv]|].
  apply makeRequest_monotone, Hinv.
Qed.

Lemma poll_loop_monotone fuel : forall videoId interval timeout signal startTime this w seen,
  stamped_in_past this w ->
  let r := poll_loop (I := OpenAIVideoAPI_interface penv) env fuel videoId interval timeout
             signal startTime this w seen in
  lastRequestTime this <= lastRequestTime (final_api r) /\
  stamped_in_past (final_api r) (final_world r).
Proof.
  induction fuel as [|fuel IH]; intros videoId interval timeout signal startTime this w seen Hinv;
    cbn [poll_loop].
  - split; [cbn; lia|exact Hinv].
  - destruct (signal_aborted signal w); [split; [cbn; lia|exact Hinv]|].
    destruct (_ >? _)%Z; [split; [cbn; lia|exact Hinv]|].
    cbn [retrieveVideo OpenAIVideoAPI_interface].
    pose proof (retrieveVideo_monotone videoId signal this w Hinv) as Hr.
    destruct (OpenAIVideoAPI_retrieveVideo env penv videoId signal this w) as [[r this'] w'].
    destruct Hr as [Hle Hinv'].
    destruct r as [video| |]; try (split; [exact Hle|exact Hinv']).
    destruct (video_status video =? "completed"); [split; [exact Hle|exact Hinv']|].
    destruct (video_status video =? "failed"); [split; [exact Hle|exact Hinv']|].
    assert (Hp : stamped_in_past this' (pause_ms env interval w')).
    { unfold stamped_in_past in *.
      pose proof (pause_ms_clock interval w'). lia. }
    specialize (IH videoId interval timeout signal startTime this'
                   (pause_ms env interval w') (seen ++ [w])%list Hp).
    cbv zeta in IH. destruct IH as [IH1 IH2]. split; [lia|exact IH2].
Qed.

Lemma run_call_monotone st c :
  stamped_in_past (fst st) (snd st) ->
  lastRequestTime (fst st) <= lastRequestTime (fst (run_call env penv st c)) /\
  stamped_in_past (fst (run_call env penv st c)) (snd (run_call env penv st c)).
Proof.
  destruct st as [this w]. cbn [fst snd]. intros Hinv.
  destruct c as [method signal | videoId signal | fuel videoId options | ms]; cbn [run_call].
  - pose proof (makeRequest_monotone method signal this w Hinv) as H.
    destruct (_makeRequest env penv method signal this w) as [[r this'] w']. exact H.
  - pose proof (retrieveVideo_monotone videoId signal this w Hinv) as H.
    destruct (OpenAIVideoAPI_retrieveVideo env penv videoId signal this w) as [[r this'] w'].
    exact H.
  - unfold waitForVideo.
    destruct (_verifyApiKey this); [split; [cbn; lia|exact Hinv]|].
    destruct (negb (truthy videoId)); [split; [cbn; lia|exact Hinv]|].
    unfold pollVideoWithProgress. cbn [fst snd]. apply poll_loop_monotone, Hinv.
  - cbn [fst snd]. split; [lia|].
    unfold stamped_in_past in *. pose proof (await_timeout_clock ms w). lia.
Qed.

Lemma run_calls_monotone cs : forall st,
  stamped_in_past (fst st) (snd st) ->
  lastRequestTime (fst st) <= lastRequestTime (fst (run_calls env penv st cs)) /\
  stamped_in_past (fst (run_calls env penv st cs)) (snd (run_calls env penv st cs)).
Proof.
  induction cs as [|c cs IH]; intros st Hinv; cbn [run_calls fold_left].
  - split; [lia|exact Hinv].
  - destruct (run_call_monotone st c Hinv) as [H1 H2].
    destruct (IH (run_call env penv st c) H2) as [H3 H4].
    unfold run_calls in *. split; [lia|exact H4].
Qed.

End Pacing.

(** Under any interleaving of overlapping calls the stamp never decreases
    and never runs ahead of the clock. *)
Lemma interleaved_stamps_monotone (acts : list Atomic) : forall stamp now,
  stamp <= now ->
  stamp <= fst (fold_left atomic_step acts (stamp, now)) /\
  fst (fold_left atomic_step acts (stamp, now)) <= snd (fold_left atomic_step acts (stamp, now)).
Proof.
  induction acts as [|a acts IH]; intros stamp now H; cbn [fold_left fst snd]; [lia|].
  destruct a as [d|]; cbn [atomic_step].
  - destruct (IH stamp (now + Z.of_N d)) as [H1 H2]; lia.
  - destruct (IH now now) as [H1 H2]; lia.
Qed.



(** C10: on an instance as the constructor leaves it, the first request is
    issued without a pacing delay, whatever [rateLimitDelay] was configured:
    the guard [lastRequestTime > 0] is false, nothing is awaited, and the
    request is stamped with the clock as it stood at the call. *)
Theorem C10_first_request_unpaced
    (env : nat -> Suspension) (penv : ProcessEnv) (o : ConstructorOptions)
    (this : OpenAIVideoAPI) (w : World) :
  constructor penv o = inr this ->
  pacing_delay this w = None /\
  pace env this w = (set_lastRequestTime this (clock w), w).
Proof.
  intros Hc.
  assert (H0 : lastRequestTime this = 0).
  { unfold constructor in Hc.
    destruct (truthy _ && negb _); [discriminate|].
    destruct (if truthy_opt (opt_apiKey o) then opt_apiKey o else getOpenAIApiKey penv);
      [|discriminate].
    injection Hc as <-. reflexivity. }
  assert (Hd : pacing_delay this w = None).
  { unfold pacing_delay. rewrite H0. reflexivity. }
  split; [exact Hd|]. unfold pace. rewrite Hd. reflexivity.
Qed.

(** A 5000 ms minimum delay: none on the first request, 4800 ms on a second
    one 200 ms later. *)
Lemma C10_first_request_unpaced_witness :
  constructor development (test_options 5000) = inr (test_client 5000) /\
  pacing_delay (test_client 5000) (boot 1000) = None /\
  pacing_delay (set_lastRequestTime (test_client 5000) 1000) (boot 1200) = Some 4800.
Proof.
  split; [reflexivity|]. split; [|reflexivity].
  apply (C10_first_request_unpaced (quiet (Resolved (in_progress 25))) development
           (test_options 5000) (test_client 5000) (boot 1000)).
  reflexivity.
Defined.

(* ------------------------------------------------------------------ *)
(** ** The polling loop *)

Section PollFacts.
Variable env : nat -> Suspension.
Context {Api : Type} {I : VideoAPIInterface Api}.

(** Every call of [api.retrieveVideo] is made in a world where the signal
    that was passed is not aborted. *)
Lemma poll_loop_fetches_unsignalled fuel :
  forall videoId interval timeout startTime api w seen,
    Forall (fun at_fetch => aborted at_fetch = false) seen ->
    Forall (fun at_fetch => aborted at_fetch = false)
      (fetched_in (poll_loop env fuel videoId interval timeout (Some TheSignal)
                     startTime api w seen)).
Proof.
  induction fuel as [|fuel IH]; intros videoId interval timeout startTime api w seen Hseen;
    cbn [poll_loop fetched_in]; [exact Hseen|].
  cbn [signal_aborted].
  destruct (aborted w) eqn:Hab; [exact Hseen|].
  destruct (_ >? _)%Z; [exact Hseen|].
  assert (Hseen' : Forall (fun at_fetch => aborted at_fetch = false) (seen ++ [w])%list).
  { apply Forall_app. split; [exact Hseen|]. constructor; [exact Hab|constructor]. }
  destruct (retrieveVideo env videoId (Some TheSignal) api w) as [[r api'] w'].
  destruct r as [video| |]; try exact Hseen'.
  destruct (video_status video =? "completed"); [exact Hseen'|].
  destruct (video_status video =? "failed"); [exact Hseen'|].
  apply IH, Hseen'.
Qed.

(** An iteration that starts with the signal aborted ends the session
    there: nothing is fetched, nothing is awaited. *)
Lemma poll_loop_stops_when_signalled fuel videoId interval timeout startTime api w seen :
  aborted w = true ->
  poll_loop env (S fuel) videoId interval timeout (Some TheSignal) startTime api w seen
  = mkPollRun (Throw PollCancelled) api w seen.
Proof.
  intros Hab. cbn [poll_loop signal_aborted]. rewrite Hab. reflexivity.
Qed.

End PollFacts.

(** C5: in a session that was given a cancellation token, [retrieveVideo] is
    only ever called in a state where the token is not signalled, and an
    iteration that finds the token signalled ends the session with the
    cancellation error without fetching or sleeping. With a token that is
    already signalled, the session fails with that error and fetches nothing;
    [waitForVideo] then leaves the world untouched (no request is issued),
    and fails with the cancellation error once its two argument checks pass. *)
Theorem C5_no_fetch_once_signalled
    (env : nat -> Suspension) (Api : Type) (I : VideoAPIInterface Api)
    (fuel : nat) (api : Api) (videoId : string) (options : PollVideoOptions) (w : World) :
  signal options = Some TheSignal ->
  Forall (fun at_fetch => aborted at_fetch = false)
    (fetched_in (pollVideoWithProgress env fuel api videoId options w)) /\
  (forall interval timeout startTime api' w' seen,
     aborted w' = true ->
     poll_loop env (S fuel) videoId interval timeout (Some TheSignal) startTime api' w' seen
     = mkPollRun (Throw PollCancelled) api' w' seen) /\
  (aborted w = true ->
   pollVideoWithProgress env (S fuel) api videoId options w
   = mkPollRun (Throw PollCancelled) api w []) /\
  (aborted w = true ->
   forall penv this,
     let r := waitForVideo env penv (S fuel) videoId options this w in
     fetched_in r = [] /\ final_world r = w /\ final_api r = this /\
     (truthy (apiKey this) = true -> truthy videoId = true ->
      outcome r = Throw PollCancelled)).
Proof.
  intros Hsig. repeat split.
  - unfold pollVideoWithProgress. rewrite Hsig.
    apply poll_loop_fetches_unsignalled. constructor.
  - intros. apply poll_loop_stops_when_signalled. assumption.
  - intros Hab. unfold pollVideoWithProgress. rewrite Hsig.
    apply poll_loop_stops_when_signalled, Hab.
  - unfold waitForVideo. destruct (_verifyApiKey this); [reflexivity|].
    destruct (negb (truthy videoId)); [reflexivity|].
    unfold pollVideoWithProgress. rewrite Hsig.
    rewrite poll_loop_stops_when_signalled by assumption. reflexivity.
  - unfold waitForVideo. destruct (_verifyApiKey this); [reflexivity|].
    destruct (negb (truthy videoId)); [reflexivity|].
    unfold pollVideoWithProgress. rewrite Hsig.
    rewrite poll_loop_stops_when_signalled by assumption. reflexivity.
  - unfold waitForVideo. destruct (_verifyApiKey this); [reflexivity|].
    destruct (negb (truthy videoId)); [reflexivity|].
    unfold pollVideoWithProgress. rewrite Hsig.
    rewrite poll_loop_stops_when_signalled by assumption. reflexivity.
  - intros Hkey Hid. unfold waitForVideo, _verifyApiKey. rewrite Hkey, Hid. cbn [negb].
    unfold pollVideoWithProgress. rewrite Hsig.
    rewrite poll_loop_stops_when_signalled by assumption. reflexivity.
Qed.

(** A token signalled before the call, and one signalled during the first
    sleep: no fetch in the first session, one in the second. *)
Lemma C5_no_fetch_once_signalled_witness :
  signal (cancellable 50 600000) = Some TheSignal /\
  aborted (presignalled 1000) = true /\
  (let r := waitForVideo abort_during_first_sleep development 5 "video_123"
              (cancellable 50 600000) (test_client 0) (presignalled 1000) in
   outcome r = Throw PollCancelled /\ fetched_in r = [] /\
   requests (final_world r) = 0%nat) /\
  (let r := waitForVideo abort_during_first_sleep development 5 "video_123"
              (cancellable 50 600000) (test_client 0) (boot 1000) in
   outcome r = Throw PollCancelled /\ List.length (fetched_in r) = 1%nat /\
   requests (final_world r) = 1%nat).
Proof.
  destruct (C5_no_fetch_once_signalled abort_during_first_sleep OpenAIVideoAPI
              (OpenAIVideoAPI_interface development) 4 (test_client 0) "video_123"
              (cancellable 50 600000) (presignalled 1000) eq_refl) as (_ & _ & _ & H).
  specialize (H eq_refl development (test_client 0)). cbv zeta in H.
  destruct H as (Hf & Hw & _ & Ho).
  split; [reflexivity|]. split; [reflexivity|]. split.
  - cbv zeta. split; [exact (Ho eq_refl eq_refl)|]. split; [exact Hf|].
    rewrite Hw. reflexivity.
  - vm_compute. repeat split; reflexivity.
Defined.

Section Timeout.
Variable env : nat -> Suspension.
Context {Api : Type} {I : VideoAPIInterface Api}.
Variable usable : Api -> Prop.
Variable videoId : string.
Variables interval timeout startTime latency : Z.

Hypothesis Hjob : always_in_progress env usable videoId latency.

Lemma poll_loop_times_out n : forall fuel api w seen,
  usable api ->
  (n < fuel)%nat ->
  timeout - (clock w - startTime) < Z.of_nat n * (latency + pause_timer interval) ->
  Forall (within_timeout startTime timeout) seen ->
  let r := poll_loop env fuel videoId interval timeout None startTime api w seen in
  outcome r = Throw (PollTimedOut timeout) /\
  (List.length (fetched_in r) <= List.length seen + n)%nat /\
  Forall (within_timeout startTime timeout) (fetched_in r) /\
  timeout < clock (final_world r) - startTime.
Proof.
  induction n as [|n IH]; intros fuel api w seen Hok Hfuel Hleft Hseen;
    (destruct fuel as [|fuel]; [lia|]); cbn [poll_loop signal_aborted]; cbv zeta.
  - destruct (Z.gtb_spec (clock w - startTime) timeout) as [Hgt|Hle]; [|lia].
    cbn [outcome fetched_in final_world]. repeat split; try assumption; lia.
  - destruct (Z.gtb_spec (clock w - startTime) timeout) as [Hgt|Hle].
    + cbn [outcome fetched_in final_world]. repeat split; try assumption; lia.
    + destruct (Hjob api w Hok) as (video & api' & w' & -> & -> & Hclk & Hok').
      change ("in_progress" =? "completed") with false.
      change ("in_progress" =? "failed") with false. cbv iota.
      pose proof (pause_ms_sleeps env interval w') as Hsleep.
      assert (Hseen' : Forall (within_timeout startTime timeout) (seen ++ [w])%list).
      { apply Forall_app. split; [exact Hseen|]. constructor; [exact Hle|constructor]. }
      destruct (IH fuel api' (pause_ms env interval w') (seen ++ [w])%list) as (H1 & H2 & H3 & H4).
      * exact Hok'.
      * lia.
      * nia.
      * exact Hseen'.
      * repeat split; try assumption.
        rewrite length_app in H2. cbn [List.length] in H2. lia.
Qed.

End Timeout.

(** C6 as stated fails: with a status fetch that takes no time on the clock
    and sleeps that end exactly on time, the elapsed times at the checks are
    0, 100 and 200; the test is [elapsed > timeout], so the third check passes
    and a third fetch is issued before the session times out. *)
Lemma C6_three_fetches :
  let r := waitForVideo (quiet (Resolved (in_progress 50))) development 10 "video_123"
             (uncancellable 100 200 (Some false)) (test_client 100) (boot 1000) in
  outcome r = Throw (PollTimedOut 200) /\
  List.length (fetched_in r) = 3%nat /\
  map clock (fetched_in r) = [1000; 1100; 1200] /\
  requests (final_world r) = 3%nat.
Proof.
  vm_compute. repeat split; reflexivity.
Qed.

(** A session with [timeout = 200] and [interval = 100] on a job that stays
    [in_progress]. *)
Lemma session_times_out
    (env : nat -> Suspension) (Api : Type) (I : VideoAPIInterface Api)
    (usable : Api -> Prop) (videoId : string) (latency : Z) (spinner : option bool)
    (fuel : nat) (api : Api) (w : World) :
  always_in_progress env usable videoId latency ->
  usable api ->
  0 <= latency ->
  (4 <= fuel)%nat ->
  let r := pollVideoWithProgress env fuel api videoId (uncancellable 100 200 spinner) w in
  outcome r = Throw (PollTimedOut 200) /\
  (List.length (fetched_in r) <= 3)%nat /\
  (1 <= latency -> (List.length (fetched_in r) <= 2)%nat) /\
  Forall (fun at_fetch => clock at_fetch - clock w <= 200) (fetched_in r) /\
  200 < clock (final_world r) - clock w.
Proof.
  intros Hjob Hok Hlat Hfuel r. subst r.
  unfold pollVideoWithProgress, uncancellable. cbn [interval timeout signal default].
  assert (Htimer : pause_timer 100 = 100) by (vm_compute; reflexivity).
  destruct (poll_loop_times_out env usable videoId 100 200 (clock w) latency Hjob
              3 fuel api w [])
    as (H1 & H2 & H3 & H4); [exact Hok | lia | rewrite Htimer; lia | constructor |].
  repeat split; try assumption.
  intros Hone.
  destruct (poll_loop_times_out env usable videoId 100 200 (clock w) latency Hjob
              2 fuel api w [])
    as (_ & H2' & _); [exact Hok | lia | rewrite Htimer; lia | constructor |].
  exact H2'.
Qed.

(** C6, amended: for a job whose status never leaves [in_progress], a
    session with [timeout = 200] and [interval = 100] ends by failing with
    the timeout error after at most 3 status fetches, and after at most 2 if
    every status fetch takes at least one millisecond. The elapsed time is
    measured from the start of the session and tested at the top of each
    iteration, before the fetch: every fetch is issued with at most 200 ms
    elapsed, and the session ends with more than 200 ms elapsed. *)
Theorem C6_times_out_within_three_fetches
    (env : nat -> Suspension) (Api : Type) (I : VideoAPIInterface Api)
    (usable : Api -> Prop) (videoId : string) (latency : Z) (spinner : option bool)
    (fuel : nat) (api : Api) (w : World) :
  always_in_progress env usable videoId latency ->
  usable api ->
  0 <= latency ->
  (4 <= fuel)%nat ->
  let r := pollVideoWithProgress env fuel api videoId (uncancellable 100 200 spinner) w in
  outcome r = Throw (PollTimedOut 200) /\
  (List.length (fetched_in r) <= 3)%nat /\
  (1 <= latency -> (List.length (fetched_in r) <= 2)%nat) /\
  Forall (fun at_fetch => clock at_fetch - clock w <= 200) (fetched_in r) /\
  200 < clock (final_world r) - clock w.
Proof.
  intros Hjob Hok Hlat Hfuel.
  exact (session_times_out env Api I usable videoId latency spinner fuel api w
           Hjob Hok Hlat Hfuel).
Qed.

Lemma scripted_always_in_progress :
  always_in_progress (I := Scripted_interface) (quiet (Resolved (in_progress 50)))
    (fun _ => True) "video_123" 0.
Proof.
  intros api w _.
  exists (in_progress 50), api, (snd (await_transport (quiet (Resolved (in_progress 50))) w)).
  split; [reflexivity|]. split; [reflexivity|]. split; [|exact Logic.I].
  unfold await_transport. cbn [snd clock quiet late]. lia.
Qed.

(** The scripted API of the timeout test, with no time lost anywhere. *)
Lemma C6_times_out_within_three_fetches_witness :
  always_in_progress (I := Scripted_interface) (quiet (Resolved (in_progress 50)))
    (fun _ => True) "video_123" 0 /\
  0 <= 0 /\
  (4 <= 4)%nat /\
  (let r := pollVideoWithProgress (I := Scripted_interface) (quiet (Resolved (in_progress 50)))
              4 tt "video_123" (uncancellable 100 200 (Some false)) (boot 1000) in
   outcome r = Throw (PollTimedOut 200) /\ (List.length (fetched_in r) <= 3)%nat).
Proof.
  split; [exact scripted_always_in_progress|]. split; [lia|]. split; [lia|].
  destruct (C6_times_out_within_three_fetches (quiet (Resolved (in_progress 50))) unit
              Scripted_interface (fun _ => True) "video_123" 0 (Some false) 4 tt (boot 1000)
              scripted_always_in_progress Logic.I (Z.le_refl 0) (le_n 4)) as (H1 & H2 & _).
  split; assumption.
Defined.

(** The same for the class itself: with a key and a video id, and a
    transport that always resolves with an [in_progress] job, every
    [retrieveVideo] resolves [in_progress], so [waitForVideo] times out within
    the same bounds. *)
Lemma client_always_in_progress env penv videoId :
  truthy videoId = true ->
  (forall k, exists video, reply (env k) = Resolved video /\
                           video_status video = "in_progress") ->
  always_in_progress (I := OpenAIVideoAPI_interface penv) env
    (fun this => truthy (apiKey this) = true) videoId 0.
Proof.
  intros Hid Henv this w Hkey.
  cbn [retrieveVideo OpenAIVideoAPI_interface].
  unfold OpenAIVideoAPI_retrieveVideo, _verifyApiKey. rewrite Hkey, Hid. cbn [negb].
  unfold _makeRequest.
  destruct (pace_stamps env this w) as [_ Hclk].
  destruct (pace env this w) as [this1 w1] eqn:Hpace. cbn [snd] in Hclk.
  change (JsString.toUpperCase "GET" =? "GET") with true. cbn [orb].
  pose proof (await_transport_clock env w1) as Ht.
  destruct (Henv (pos w1)) as (video & Hreply & Hstatus).
  unfold await_transport in *. cbn [snd] in Ht. rewrite Hreply.
  eexists video, this1, _. split; [reflexivity|]. split; [exact Hstatus|].
  split; [lia|].
  unfold pace in Hpace. injection Hpace as <- _. exact Hkey.
Qed.

Lemma waitForVideo_times_out env penv fuel videoId spinner this w :
  truthy (apiKey this) = true ->
  truthy videoId = true ->
  (forall k, exists video, reply (env k) = Resolved video /\
                           video_status video = "in_progress") ->
  (4 <= fuel)%nat ->
  let r := waitForVideo env penv fuel videoId (uncancellable 100 200 spinner) this w in
  outcome r = Throw (PollTimedOut 200) /\ (List.length (fetched_in r) <= 3)%nat.
Proof.
  intros Hkey Hid Henv Hfuel. unfold waitForVideo, _verifyApiKey. rewrite Hkey, Hid. cbn [negb].
  destruct (session_times_out env OpenAIVideoAPI (OpenAIVideoAPI_interface penv)
              (fun this => truthy (apiKey this) = true) videoId 0 spinner fuel this w
              (client_always_in_progress env penv videoId Hid Henv) Hkey (Z.le_refl 0) Hfuel)
    as (H1 & H2 & _).
  split; assumption.
Qed.

(* ================================================================== *)
(** * Further properties of the validator *)

Section ValidateContract.
Import JsString.
Context {P : Platform}.
Variable isBlockedIP : string -> bool.

(** What an accepted URL has been through. *)
Lemma accepted_was_checked url u :
  validateImageUrl_with isBlockedIP url = inr u ->
  u = url /\
  exists parsed,
    parseURL url = Some parsed /\
    protocol parsed = "https:" /\
    let host := toLowerCase (hostname parsed) in
    array_includes refused_names (stripBrackets host) = false /\
    (if isIPv4 (stripBrackets host) || isIPv6 (stripBrackets host)
     then isBlockedIP (stripBrackets host) = false
     else exists address, lookup host = inr address /\ isBlockedIP address = false).
Proof.
  unfold validateImageUrl_with, refused_names.
  destruct (parseURL url) as [parsed|]; [|discriminate].
  destruct (protocol parsed =? "https:") eqn:Hs; cbn [negb]; [|discriminate].
  cbv zeta.
  destruct (array_includes _ _) eqn:Hn; [discriminate|].
  destruct (isIPv4 _ || isIPv6 _) eqn:Hip.
  - destruct (isBlockedIP _) eqn:Hb; [discriminate|].
    intros H. injection H as <-. split; [reflexivity|].
    exists parsed. apply String.eqb_eq in Hs.
    repeat split; try assumption. rewrite Hip. exact Hb.
  - destruct (lookup _) as [err|address] eqn:Hl.
    + destruct (match lookup_code err with Some c => c =? "ENOTFOUND" | None => false end);
        [discriminate|].
      destruct (match lookup_message err with
                | Some m => negb (m =? "") && includes m "resolves to internal"
                | None => false end); discriminate.
    + destruct (isBlockedIP address) eqn:Hb; [discriminate|].
      intros H. injection H as <-. split; [reflexivity|].
      exists parsed. apply String.eqb_eq in Hs.
      repeat split; try assumption. rewrite Hip. exists address. split; [exact Hl|exact Hb].
Qed.

(** A host that is not an IP literal and cannot be resolved is refused,
    whatever the resolver's error. *)
Lemma unresolved_is_refused url parsed err :
  parseURL url = Some parsed ->
  let host := toLowerCase (hostname parsed) in
  isIPv4 (stripBrackets host) || isIPv6 (stripBrackets host) = false ->
  lookup host = inl err ->
  exists e, validateImageUrl_with isBlockedIP url = inl e /\
            (protocol parsed = "https:" ->
             array_includes refused_names (stripBrackets host) = false ->
             (lookup_code err = Some "ENOTFOUND" -> e = UnresolvableDomain host) /\
             (lookup_code err = None -> lookup_message err = None ->
              e = ResolutionFailed host None)).
Proof.
  intros Hp host Hip Hl. unfold validateImageUrl_with, refused_names. rewrite Hp.
  destruct (protocol parsed =? "https:") eqn:Hs; cbn [negb].
  2:{ eexists. split; [reflexivity|]. intros E. rewrite E in Hs. discriminate. }
  cbv zeta. fold host.
  destruct (array_includes _ (stripBrackets host)) eqn:Hn.
  { eexists. split; [reflexivity|]. intros _ E. discriminate. }
  rewrite Hip, Hl.
  destruct (lookup_code err) as [c|] eqn:Hc.
  - destruct (c =? "ENOTFOUND") eqn:Hcode.
    + eexists. split; [reflexivity|]. intros _ _. split; [reflexivity|discriminate].
    + destruct (match lookup_message err with
                | Some m => negb (m =? "") && includes m "resolves to internal"
                | None => false end);
        (eexists; split; [reflexivity|]; intros _ _; split; [|discriminate]);
        intros E; injection E as ->; discriminate.
  - destruct (lookup_message err) as [m|] eqn:Hm.
    + destruct (negb (m =? "") && includes m "resolves to internal");
        (eexists; split; [reflexivity|]; intros _ _; split; discriminate).
    + eexists. split; [reflexivity|]. intros _ _. split; [discriminate|reflexivity].
Qed.

End ValidateContract.

(** X1: a URL that does not parse is refused as malformed, and a URL whose
    scheme is anything but [https:] is refused for its scheme, before the
    host is looked at: by both copies, whatever the host and the resolver. *)
Theorem X1_only_https_is_considered (P : Platform) (url : string) :
  (parseURL url = None ->
   validateImageUrl_js url = inl (MalformedUrl url) /\
   validateImageUrl_ts url = inl (MalformedUrl url)) /\
  (forall parsed, parseURL url = Some parsed ->
     (protocol parsed =? "https:") = false ->
     validateImageUrl_js url = inl NonHttpsScheme /\
     validateImageUrl_ts url = inl NonHttpsScheme).
Proof.
  unfold validateImageUrl_js, validateImageUrl_ts, validateImageUrl_with. split.
  - intros ->. split; reflexivity.
  - intros parsed -> ->. split; reflexivity.
Qed.

(** The plain-HTTP URL and the non-URL of the test suite. *)
Lemma X1_only_https_is_considered_witness :
  validateImageUrl_ts (P := Fixture.node ("example.com", "8.8.8.8"))
    "http://example.com/image.png" = inl NonHttpsScheme /\
  validateImageUrl_js (P := Fixture.node ("example.com", "8.8.8.8"))
    "not-a-url" = inl (MalformedUrl "not-a-url").
Proof.
  destruct (X1_only_https_is_considered (Fixture.node ("example.com", "8.8.8.8"))
              "http://example.com/image.png") as [_ H].
  destruct (X1_only_https_is_considered (Fixture.node ("example.com", "8.8.8.8"))
              "not-a-url") as [H' _].
  split.
  - exact (proj2 (H _ eq_refl eq_refl)).
  - exact (proj1 (H' eq_refl)).
Defined.

(** X2: a URL comes back accepted only unchanged, and only if it parsed, its
    scheme is [https:], its host (lower-cased, brackets stripped) is none of
    the three refused names, and either the host is an IP literal that
    [isBlockedIP] does not block, or it resolved to an address that
    [isBlockedIP] does not block. Both copies, each with its own
    [isBlockedIP]. *)
Theorem X2_accepted_url_was_checked (P : Platform) (url u : string) :
  validateImageUrl_js url = inr u \/ validateImageUrl_ts url = inr u ->
  u = url /\
  exists parsed,
    parseURL url = Some parsed /\
    protocol parsed = "https:" /\
    let host := JsString.toLowerCase (hostname parsed) in
    let clean := JsString.stripBrackets host in
    JsString.array_includes refused_names clean = false /\
    (validateImageUrl_js url = inr u ->
     if isIPv4 clean || isIPv6 clean then UtilsJs.isBlockedIP clean = false
     else exists address, lookup host = inr address /\ UtilsJs.isBlockedIP address = false) /\
    (validateImageUrl_ts url = inr u ->
     if isIPv4 clean || isIPv6 clean then UtilsTs.isBlockedIP clean = false
     else exists address, lookup host = inr address /\ UtilsTs.isBlockedIP address = false).
Proof.
  intros H.
  assert (Hany : exists f, validateImageUrl_with f url = inr u).
  { destruct H as [H|H]; eexists; exact H. }
  destruct Hany as (f & Hf).
  destruct (accepted_was_checked f url u Hf) as (Hu & parsed & Hp & Hs & Hn & _).
  split; [exact Hu|]. exists parsed. cbv zeta in *.
  repeat split; try assumption.
  - intros Hjs. destruct (accepted_was_checked _ url u Hjs) as (_ & parsed' & Hp' & _ & _ & Hc).
    rewrite Hp in Hp'. injection Hp' as <-. exact Hc.
  - intros Hts. destruct (accepted_was_checked _ url u Hts) as (_ & parsed' & Hp' & _ & _ & Hc).
    rewrite Hp in Hp'. injection Hp' as <-. exact Hc.
Qed.

(** A public host that resolves to a public address. *)
Lemma X2_accepted_url_was_checked_witness :
  validateImageUrl_ts (P := Fixture.node ("example.com", "8.8.8.8"))
    "https://example.com/image.png" = inr "https://example.com/image.png" /\
  UtilsTs.isBlockedIP "8.8.8.8" = false.
Proof.
  split; [reflexivity|].
  destruct (X2_accepted_url_was_checked (Fixture.node ("example.com", "8.8.8.8"))
              "https://example.com/image.png" "https://example.com/image.png"
              (or_intror eq_refl)) as (_ & parsed & Hp & _ & _ & _ & Hts).
  injection Hp as <-. specialize (Hts eq_refl). cbv zeta in Hts.
  destruct Hts as (address & Hl & Hb). injection Hl as <-. exact Hb.
Defined.

(** X3: validation fails closed on the resolver. When the host is not an IP
    literal and [dns.lookup] rejects, both copies refuse the URL whatever the
    error is; for an https URL whose host is not a refused name, the error
    code ENOTFOUND gives the could-not-be-resolved error. *)
Theorem X3_lookup_failure_is_refusal (P : Platform) (url : string)
    (parsed : ParsedURL) (err : LookupError) :
  parseURL url = Some parsed ->
  let host := JsString.toLowerCase (hostname parsed) in
  isIPv4 (JsString.stripBrackets host) || isIPv6 (JsString.stripBrackets host) = false ->
  lookup host = inl err ->
  (exists e, validateImageUrl_js url = inl e) /\
  (exists e, validateImageUrl_ts url = inl e) /\
  (protocol parsed = "https:" ->
   JsString.array_includes refused_names (JsString.stripBrackets host) = false ->
   lookup_code err = Some "ENOTFOUND" ->
   validateImageUrl_js url = inl (UnresolvableDomain host) /\
   validateImageUrl_ts url = inl (UnresolvableDomain host)).
Proof.
  intros Hp host Hip Hl.
  destruct (unresolved_is_refused UtilsJs.isBlockedIP url parsed err Hp Hip Hl) as (e1 & H1 & K1).
  destruct (unresolved_is_refused UtilsTs.isBlockedIP url parsed err Hp Hip Hl) as (e2 & H2 & K2).
  split; [exists e1; exact H1|]. split; [exists e2; exact H2|].
  intros Hs Hn Hc.
  destruct (K1 Hs Hn) as [K1' _]. destruct (K2 Hs Hn) as [K2' _].
  unfold validateImageUrl_js, validateImageUrl_ts.
  rewrite H1, H2, (K1' Hc), (K2' Hc). split; reflexivity.
Qed.

(** The unresolvable domain of the test suite. *)
Lemma X3_lookup_failure_is_refusal_witness :
  validateImageUrl_ts (P := Fixture.node ("example.com", "8.8.8.8"))
    "https://nonexistent.domain.invalid/image.jpg"
  = inl (UnresolvableDomain "nonexistent.domain.invalid").
Proof.
  pose (P := Fixture.node ("example.com", "8.8.8.8")).
  destruct (X3_lookup_failure_is_refusal P "https://nonexistent.domain.invalid/image.jpg"
              {| protocol := "https:"; hostname := "nonexistent.domain.invalid" |}
              {| lookup_code := Some "ENOTFOUND"; lookup_message := None |}
              eq_refl eq_refl eq_refl) as (_ & _ & H).
  exact (proj2 (H eq_refl eq_refl eq_refl)).
Defined.

(** X4: a literal IPv4 host in 127.0.0.0/8, 10.0.0.0/8, 172.16.0.0/12,
    192.168.0.0/16, 169.254.0.0/16 or 0.0.0.0/8, written in dotted decimal,
    is refused by both copies as an internal address. *)
Theorem X4_private_ipv4_literal_refused (P : Platform) (url : string)
    (parsed : ParsedURL) (a : IPv4) :
  parseURL url = Some parsed ->
  protocol parsed = "https:" ->
  JsString.stripBrackets (JsString.toLowerCase (hostname parsed)) = dotted a ->
  isIPv4 (dotted a) = true ->
  in_blocked_range a = true ->
  validateImageUrl_js url = inl BlockedLiteralIP /\
  validateImageUrl_ts url = inl BlockedLiteralIP.
Proof.
  intros Hp Hs Hh H4 Ha.
  destruct (ipv4_ranges_blocked a Ha) as [Hjs Hts].
  assert (Hname : JsString.array_includes refused_names (dotted a) = false).
  { destruct (dotted_prefix a Ha) as (p & rest & Hin & ->).
    unfold range_prefixes in Hin. simpl in Hin.
    repeat (destruct Hin as [Hin|Hin]; [subst; reflexivity|]). contradiction. }
  unfold refused_names in Hname.
  unfold validateImageUrl_js, validateImageUrl_ts, validateImageUrl_with.
  rewrite Hp, Hs. cbv zeta. rewrite Hh, Hname, H4, Hjs, Hts. split; reflexivity.
Qed.

(** An address of 172.16.0.0/12 as the host. *)
Lemma X4_private_ipv4_literal_refused_witness :
  in_blocked_range (mkIPv4 172 31 255 254) = true /\
  validateImageUrl_ts (P := Fixture.node ("example.com", "8.8.8.8"))
    "https://172.31.255.254/image.png" = inl BlockedLiteralIP.
Proof.
  split; [reflexivity|].
  exact (proj2 (X4_private_ipv4_literal_refused (Fixture.node ("example.com", "8.8.8.8"))
                  "https://172.31.255.254/image.png"
                  {| protocol := "https:"; hostname := "172.31.255.254" |}
                  (mkIPv4 172 31 255 254) eq_refl eq_refl eq_refl eq_refl eq_refl)).
Defined.

(** X5: a domain name that is on no list but resolves, at validation time,
    to a dotted IPv4 address of one of those ranges is refused by both copies
    with the resolves-to-internal error. *)
Theorem X5_rebinding_to_private_ipv4_refused (P : Platform) (url : string)
    (parsed : ParsedURL) (a : IPv4) :
  parseURL url = Some parsed ->
  protocol parsed = "https:" ->
  let host := JsString.toLowerCase (hostname parsed) in
  JsString.array_includes refused_names (JsString.stripBrackets host) = false ->
  isIPv4 (JsString.stripBrackets host) || isIPv6 (JsString.stripBrackets host) = false ->
  lookup host = inr (dotted a) ->
  in_blocked_range a = true ->
  validateImageUrl_js url = inl (DnsRebindingDetected host) /\
  validateImageUrl_ts url = inl (DnsRebindingDetected host).
Proof.
  intros Hp Hs host Hname Hip Hl Ha.
  destruct (ipv4_ranges_blocked a Ha) as [Hjs Hts].
  unfold refused_names in Hname.
  unfold validateImageUrl_js, validateImageUrl_ts, validateImageUrl_with.
  rewrite Hp, Hs. cbv zeta. fold host. rewrite Hname, Hip, Hl, Hjs, Hts.
  split; reflexivity.
Qed.

(** The rebinding test of the suite: evil.com resolves to 10.0.0.1. *)
Lemma X5_rebinding_to_private_ipv4_refused_witness :
  in_blocked_range (mkIPv4 10 0 0 1) = true /\
  validateImageUrl_js (P := Fixture.node ("evil.com", "10.0.0.1"))
    "https://evil.com/image.jpg" = inl (DnsRebindingDetected "evil.com").
Proof.
  split; [reflexivity|].
  exact (proj1 (X5_rebinding_to_private_ipv4_refused (Fixture.node ("evil.com", "10.0.0.1"))
                  "https://evil.com/image.jpg"
                  {| protocol := "https:"; hostname := "evil.com" |}
                  (mkIPv4 10 0 0 1) eq_refl eq_refl eq_refl eq_refl eq_refl eq_refl)).
Defined.

Section Nesting.
Import JsString.

Lemma strip_close_mapped v : strip_close ("::ffff:" ++ v) = "::ffff:" ++ strip_close v.
Proof.
  cbn [append]. repeat (rewrite strip_close_cons by discriminate). reflexivity.
Qed.

Lemma strip_close_nested n : forall v, strip_close (nested n v) = nested n (strip_close v).
Proof.
  induction n as [|n IH]; intros v; cbn [nested]; [reflexivity|].
  rewrite strip_close_mapped, IH. reflexivity.
Qed.

Lemma nested_blocked_ts n : forall p r,
  In p range_prefixes -> UtilsTs.isBlockedIP (nested n (p ++ r)) = true.
Proof.
  induction n as [|n IH]; intros p r Hp; cbn [nested].
  - apply range_prefix_blocked_ts, Hp.
  - rewrite ts_unwraps, strip_close_nested, (strip_close_range_prefix p r Hp).
    apply IH, Hp.
Qed.

End Nesting.

(** X6: the TypeScript [isBlockedIP] unwraps the IPv4-mapped prefix at every
    depth: however many [::ffff:] prefixes stand in front of a dotted address
    of a blocked IPv4 range, the answer is blocked. The recursion is on a
    string seven characters shorter each time, so it ends. *)
Theorem X6_unwrap_at_every_depth (n : nat) (a : IPv4) :
  in_blocked_range a = true ->
  UtilsTs.isBlockedIP (nested n (dotted a)) = true.
Proof.
  intros Ha. destruct (dotted_prefix a Ha) as (p & rest & Hp & ->).
  apply nested_blocked_ts, Hp.
Qed.

(** Three prefixes around the metadata address. *)
Lemma X6_unwrap_at_every_depth_witness :
  in_blocked_range (mkIPv4 169 254 169 254) = true /\
  UtilsTs.isBlockedIP "::ffff:::ffff:::ffff:169.254.169.254" = true.
Proof.
  split; [reflexivity|].
  exact (X6_unwrap_at_every_depth 3 (mkIPv4 169 254 169 254) eq_refl).
Defined.

(* ================================================================== *)
(** * Further properties of the dispatcher *)

Section PacingBounds.
Variable env : nat -> Suspension.
Variable penv : ProcessEnv.

(** The wait, when there is one, is positive and no longer than the
    configured delay. *)
Lemma pacing_delay_bounds this w d :
  stamped_in_past this w ->
  pacing_delay this w = Some d ->
  0 < d <= rateLimitDelay this.
Proof.
  unfold stamped_in_past, pacing_delay. intros Hinv.
  destruct (lastRequestTime this >? 0)%Z; cbn [andb]; [|discriminate].
  destruct (Z.ltb_spec (clock w - lastRequestTime this) (rateLimitDelay this)) as [Hlt|Hge];
    [|discriminate].
  intros E. injection E as <-. lia.
Qed.

(** After pacing, the new stamp is at least the delay past the old one. *)
Lemma pace_keeps_distance this w :
  0 < lastRequestTime this ->
  lastRequestTime this <= clock w ->
  rateLimitDelay this <= TIMEOUT_MAX ->
  lastRequestTime this + rateLimitDelay this <= lastRequestTime (fst (pace env this w)).
Proof.
  intros Hpos Hpast Hmax. unfold pace, pacing_delay.
  cbn [fst set_lastRequestTime lastRequestTime].
  destruct (Z.gtb_spec (lastRequestTime this) 0) as [_|Hle]; [|lia]. cbn [andb].
  destruct (Z.ltb_spec (clock w - lastRequestTime this) (rateLimitDelay this)) as [Hlt|Hge].
  - pose proof (await_timeout_sleeps env
                  (rateLimitDelay this - (clock w - lastRequestTime this)) w) as Hsleep.
    lia.
  - lia.
Qed.

(** Above [TIMEOUT_MAX] the wait is a timer of 1 ms. *)
Lemma pace_beyond_the_maximum this w d :
  pacing_delay this w = Some d ->
  TIMEOUT_MAX < d ->
  snd (pace env this w) = timer_fires env 1 w.
Proof.
  intros Hd Hmax. unfold pace. rewrite Hd. cbn [snd]. unfold await_timeout, timer_delay.
  destruct (Z.leb_spec d TIMEOUT_MAX) as [Hle|_]; [lia|]. rewrite andb_false_r. reflexivity.
Qed.

End PacingBounds.



(** X8: what the constructor guarantees about the key. Every instance it
    returns holds a non-empty key, so [_verifyApiKey] passes on it; a
    non-empty [apiKey] option is the key held, whatever the environment
    says; and with no key in either place the constructor throws the
    missing-key error for every base address it accepts, that is, one that
    is empty or begins with [https://], given or defaulted. *)
Theorem X8_constructed_instance_has_a_key (penv : ProcessEnv) (o : ConstructorOptions) :
  (forall this, constructor penv o = inr this ->
     truthy (apiKey this) = true /\ _verifyApiKey this = None /\
     (forall k, opt_apiKey o = Some k -> truthy k = true -> apiKey this = k) /\
     (truthy_opt (opt_apiKey o) = false -> OPENAI_API_KEY penv = Some (apiKey this))) /\
  (truthy_opt (opt_apiKey o) = false -> truthy_opt (OPENAI_API_KEY penv) = false ->
   (default BASE_URL (opt_baseUrl o) = "" \/
    JsString.startsWith (default BASE_URL (opt_baseUrl o)) "https://" = true) ->
   constructor penv o = inl MissingApiKey) /\
  (truthy_opt (opt_apiKey o) = false -> truthy_opt (OPENAI_API_KEY penv) = false ->
   forall this, constructor penv o <> inr this).
Proof.
  split; [|split].
  - intros this. unfold constructor.
    destruct (truthy _ && negb _); [discriminate|].
    destruct (truthy_opt (opt_apiKey o)) eqn:Ho.
    + destruct (opt_apiKey o) as [k|] eqn:Hk; [|discriminate].
      intros H. injection H as <-. cbn [apiKey]. unfold _verifyApiKey. cbn [apiKey].
      cbn [truthy_opt] in Ho. rewrite Ho. repeat split.
      * intros k' E _. congruence.
      * discriminate.
    + unfold getOpenAIApiKey.
      destruct (truthy_opt (OPENAI_API_KEY penv)) eqn:He; [|discriminate].
      destruct (OPENAI_API_KEY penv) as [k|] eqn:Hk; [|discriminate].
      intros H. injection H as <-. cbn [apiKey]. unfold _verifyApiKey. cbn [apiKey].
      cbn [truthy_opt] in He. rewrite He. repeat split.
      intros k' E Hk'. rewrite E in Ho. cbn [truthy_opt] in Ho. congruence.
  - intros Ho He Hb. unfold constructor, getOpenAIApiKey. rewrite Ho, He.
    destruct Hb as [Hb|Hb]; rewrite Hb; [reflexivity|].
    cbn [negb]. rewrite andb_false_r. reflexivity.
  - intros Ho He this. unfold constructor, getOpenAIApiKey. rewrite Ho, He.
    destruct (truthy _ && negb _); discriminate.
Qed.

(** The option wins over the environment; and with no key anywhere a base
    address of one's own, accepted, still ends in the missing-key error. *)
Lemma X8_constructed_instance_has_a_key_witness :
  constructor {| NODE_ENV := None; OPENAI_API_KEY := Some "sk-from-env" |} (test_options 1000)
  = inr (test_client 1000) /\
  _verifyApiKey (test_client 1000) = None /\
  constructor {| NODE_ENV := None; OPENAI_API_KEY := None |}
    {| opt_apiKey := None; opt_baseUrl := Some "https://proxy.example.com";
       opt_rateLimitDelay := None |} = inl MissingApiKey.
Proof.
  split; [reflexivity|].
  destruct (X8_constructed_instance_has_a_key
              {| NODE_ENV := None; OPENAI_API_KEY := Some "sk-from-env" |} (test_options 1000))
    as [H _].
  split; [exact (proj1 (proj2 (H (test_client 1000) eq_refl)))|].
  destruct (X8_constructed_instance_has_a_key
              {| NODE_ENV := None; OPENAI_API_KEY := None |}
              {| opt_apiKey := None; opt_baseUrl := Some "https://proxy.example.com";
                 opt_rateLimitDelay := None |}) as (_ & H' & _).
  exact (H' eq_refl eq_refl (or_intror eq_refl)).
Defined.

(** X9: in production the text of the error thrown for a failure that came
    with a response depends on the status alone: two such failures with the
    same status give the same text, whatever the server's message and the
    transport's own message were. *)
Theorem X9_production_text_depends_on_status_only
    (penv : ProcessEnv) (e1 e2 : AxiosError) (r1 r2 : Response) :
  in_production penv = true ->
  reports_cancellation e1 = false ->
  reports_cancellation e2 = false ->
  err_response e1 = Some r1 ->
  err_response e2 = Some r2 ->
  status r1 = status r2 ->
  error_text (_makeRequest_catch penv e1) = error_text (_makeRequest_catch penv e2).
Proof.
  intros Hp Hc1 Hc2 Hr1 Hr2 Hst. unfold _makeRequest_catch.
  rewrite Hc1, Hc2, Hr1, Hr2. cbv zeta.
  rewrite !(sanitize_production _ _ _ Hp), Hst. reflexivity.
Qed.

(** A 400 with a revealing message and a 400 with none. *)
Lemma X9_production_text_depends_on_status_only_witness :
  error_text (_makeRequest_catch production rejected_400) = "Bad request: Invalid request parameters" /\
  error_text (_makeRequest_catch production rejected_400)
  = error_text (_makeRequest_catch production
                  {| err_name := "AxiosError"; err_code := None; err_message := "";
                     err_response := Some {| status := 400; data_error_message := None |} |}).
Proof.
  split; [reflexivity|].
  exact (X9_production_text_depends_on_status_only production rejected_400
           {| err_name := "AxiosError"; err_code := None; err_message := "";
              err_response := Some {| status := 400; data_error_message := None |} |}
           {| status := 400; data_error_message := Some "Detailed error message" |}
           {| status := 400; data_error_message := None |}
           eq_refl eq_refl eq_refl eq_refl eq_refl eq_refl).
Defined.

(* ================================================================== *)
(** * Further properties of the polling loop *)

Section PollBound.
Variable env : nat -> Suspension.
Context {Api : Type} {I : VideoAPIInterface Api}.
Variable videoId : string.
Variables interval timeout startTime : Z.
Variable signal : option AbortSignal.
Hypothesis Hsteady : steady env videoId signal.

(** With [n] runs of the pause timer more than the time left, the session
    ends within [n] fetches and [n + 1] iterations. *)
Lemma poll_loop_bounded n : forall fuel api w seen,
  (n < fuel)%nat ->
  timeout - (clock w - startTime) < Z.of_nat n * pause_timer interval ->
  let r := poll_loop env fuel videoId interval timeout signal startTime api w seen in
  outcome r <> OutOfFuel /\
  (List.length (fetched_in r) <= List.length seen + n)%nat /\
  (requests (final_world r) + List.length seen <= requests w + List.length (fetched_in r))%nat.
Proof.
  induction n as [|n IH]; intros fuel api w seen Hfuel Hleft;
    (destruct fuel as [|fuel]; [lia|]); cbn [poll_loop]; cbv zeta.
  - destruct (signal_aborted signal w); [cbn; repeat split; try discriminate; lia|].
    destruct (Z.gtb_spec (clock w - startTime) timeout) as [Hgt|Hle]; [|lia].
    cbn. repeat split; try discriminate; lia.
  - destruct (signal_aborted signal w); [cbn; repeat split; try discriminate; lia|].
    destruct (Z.gtb_spec (clock w - startTime) timeout) as [Hgt|Hle];
      [cbn; repeat split; try discriminate; lia|].
    pose proof (Hsteady api w) as Hs.
    destruct (retrieveVideo env videoId signal api w) as [[r api'] w'].
    destruct Hs as (Hr & Hclk & Hreq).
    assert (Hlen : List.length (seen ++ [w])%list = S (List.length seen)).
    { rewrite length_app. cbn [List.length]. lia. }
    destruct r as [video| e |]; [| cbn; rewrite Hlen; repeat split; try discriminate; lia
                                 | contradiction].
    destruct (video_status video =? "completed");
      [cbn; rewrite Hlen; repeat split; try discriminate; lia|].
    destruct (video_status video =? "failed");
      [cbn; rewrite Hlen; repeat split; try discriminate; lia|].
    pose proof (pause_ms_sleeps env interval w') as Hsleep.
    destruct (IH fuel api' (pause_ms env interval w') (seen ++ [w])%list) as (H1 & H2 & H3).
    + lia.
    + nia.
    + rewrite Hlen in H2, H3.
      change (requests (pause_ms env interval w')) with (requests w') in H3.
      repeat split; [exact H1 | lia | lia].
Qed.

End PollBound.

Section ClientPolling.
Variable env : nat -> Suspension.
Variable penv : ProcessEnv.

Lemma client_is_steady videoId signal :
  steady (I := OpenAIVideoAPI_interface penv) env videoId signal.
Proof.
  intros this w. cbn [retrieveVideo OpenAIVideoAPI_interface].
  unfold OpenAIVideoAPI_retrieveVideo.
  destruct (_verifyApiKey this); [repeat split; try discriminate; lia|].
  destruct (negb (truthy videoId)); [repeat split; try discriminate; lia|].
  unfold _makeRequest.
  destruct (pace_stamps env this w) as [_ Hclk].
  assert (Hreq : requests (snd (pace env this w)) = requests w).
  { unfold pace. cbn [snd]. destruct (pacing_delay this w); reflexivity. }
  destruct (pace env this w) as [this1 w1]. cbn [snd] in Hclk, Hreq.
  change (JsString.toUpperCase "GET" =? "GET") with true. cbn [orb].
  unfold await_transport.
  destruct (reply (env (pos w1))); cbn [clock requests];
    repeat split; try discriminate; lia.
Qed.

(** How a session on the class can end, and what then holds. *)
Lemma client_poll_outcomes fuel :
  forall videoId interval timeout signal startTime this w seen,
  let r := poll_loop (I := OpenAIVideoAPI_interface penv) env fuel videoId interval timeout
             signal startTime this w seen in
  match outcome r with
  | Return video => video_status video = "completed"
  | Throw PollCancelled => signal_aborted signal (final_world r) = true
  | Throw (PollTimedOut t) => t = timeout /\ timeout < clock (final_world r) - startTime
  | Throw (JobFailed m) => m <> ""
  | _ => True
  end.
Proof.
  induction fuel as [|fuel IH]; intros videoId interval timeout signal startTime this w seen;
    cbn [poll_loop]; cbv zeta; [exact Logic.I|].
  destruct (signal_aborted signal w) eqn:Hab; [exact Hab|].
  destruct (Z.gtb_spec (clock w - startTime) timeout) as [Hgt|Hle];
    [cbn; split; [reflexivity|lia]|].
  cbn [retrieveVideo OpenAIVideoAPI_interface].
  assert (Hthrown : match fst (fst (OpenAIVideoAPI_retrieveVideo env penv videoId signal this w)) with
                    | Throw PollCancelled | Throw (PollTimedOut _) | Throw (JobFailed _) => False
                    | _ => True
                    end).
  { unfold OpenAIVideoAPI_retrieveVideo, _verifyApiKey.
    destruct (negb (truthy (apiKey this))); [exact Logic.I|].
    destruct (negb (truthy videoId)); [exact Logic.I|].
    unfold _makeRequest. destruct (pace env this w) as [this1 w1].
    destruct (_ || _).
    - destruct (await_transport env w1) as [r w2]. destruct r; exact Logic.I.
    - exact Logic.I. }
  destruct (OpenAIVideoAPI_retrieveVideo env penv videoId signal this w) as [[r this'] w'].
  cbn [fst] in Hthrown.
  destruct r as [video| e |]; [| destruct e; cbn; try exact Logic.I; contradiction
                               | exact Logic.I].
  destruct (video_status video =? "completed") eqn:Hc; [cbn; apply String.eqb_eq, Hc|].
  destruct (video_status video =? "failed").
  - cbn. destruct (video_error_message video) as [m|]; [|discriminate].
    destruct (m =? "") eqn:Hm; [discriminate|]. apply String.eqb_neq, Hm.
  - apply IH.
Qed.

End ClientPolling.

Lemma waitForVideo_bounded
    (env : nat -> Suspension) (penv : ProcessEnv) (n fuel : nat) (videoId : string)
    (options : PollVideoOptions) (this : OpenAIVideoAPI) (w : World) :
  default 600000 (timeout options) < Z.of_nat n * pause_timer (default 10000 (interval options)) ->
  (n < fuel)%nat ->
  let r := waitForVideo env penv fuel videoId options this w in
  outcome r <> OutOfFuel /\
  (List.length (fetched_in r) <= n)%nat /\
  (requests (final_world r) <= requests w + n)%nat.
Proof.
  intros Hn Hfuel. unfold waitForVideo.
  destruct (_verifyApiKey this); [cbn; repeat split; try discriminate; lia|].
  destruct (negb (truthy videoId)); [cbn; repeat split; try discriminate; lia|].
  unfold pollVideoWithProgress.
  destruct (poll_loop_bounded env videoId (default 10000 (interval options))
              (default 600000 (timeout options)) (clock w) (signal options)
              (client_is_steady env penv videoId (signal options)) n fuel this w [])
    as (H1 & H2 & H3); [exact Hfuel | lia |].
  cbn [List.length] in H2, H3. repeat split; [exact H1 | lia | lia].
Qed.



Lemma waitForVideo_outcomes
    (env : nat -> Suspension) (penv : ProcessEnv) (fuel : nat) (videoId : string)
    (options : PollVideoOptions) (this : OpenAIVideoAPI) (w : World) :
  let r := waitForVideo env penv fuel videoId options this w in
  match outcome r with
  | Return video => video_status video = "completed"
  | Throw PollCancelled =>
      signal options = Some TheSignal /\ aborted (final_world r) = true
  | Throw (PollTimedOut t) =>
      t = default 600000 (timeout options) /\
      default 600000 (timeout options) < clock (final_world r) - clock w
  | Throw (JobFailed m) => m <> ""
  | _ => True
  end.
Proof.
  unfold waitForVideo, _verifyApiKey.
  destruct (negb (truthy (apiKey this))); [exact Logic.I|].
  destruct (negb (truthy videoId)); [exact Logic.I|].
  unfold pollVideoWithProgress.
  pose proof (client_poll_outcomes env penv fuel videoId (default 10000 (interval options))
                (default 600000 (timeout options)) (signal options) (clock w) this w []) as H.
  cbv zeta in *.
  destruct (outcome _) as [video| e |]; try exact H.
  destruct e; try exact H.
  destruct (signal options) as [[]|]; cbn [signal_aborted] in H; [|discriminate].
  split; [reflexivity|exact H].
Qed.

(** X11: what each way [waitForVideo] can end means. A returned job has
    status [completed]; the cancellation error is thrown only with a token
    that is signalled at that moment; the timeout error carries the session's
    timeout and is thrown only once more than that has elapsed since the
    session began; the job-failed error always has a non-empty message. *)
Theorem X11_session_outcomes_are_justified
    (env : nat -> Suspension) (penv : ProcessEnv) (fuel : nat) (videoId : string)
    (options : PollVideoOptions) (this : OpenAIVideoAPI) (w : World) :
  let r := waitForVideo env penv fuel videoId options this w in
  match outcome r with
  | Return video => video_status video = "completed"
  | Throw PollCancelled =>
      signal options = Some TheSignal /\ aborted (final_world r) = true
  | Throw (PollTimedOut t) =>
      t = default 600000 (timeout options) /\
      default 600000 (timeout options) < clock (final_world r) - clock w
  | Throw (JobFailed m) => m <> ""
  | _ => True
  end.
Proof. exact (waitForVideo_outcomes env penv fuel videoId options this w). Qed.

(* ================================================================== *)
(** * File names *)

Section Sanitize.

Lemma all_units_replace_runs b s : all_units is_filename_unit (replace_runs b s) = true.
Proof.
  revert b. induction s as [|c t IH]; intros b; cbn [replace_runs all_units]; [reflexivity|].
  destruct (is_lower_alnum c) eqn:Hc.
  - cbn [all_units]. unfold is_filename_unit at 1. rewrite Hc. cbn. apply IH.
  - destruct b; [apply IH|]. cbn [all_units]. rewrite IH. reflexivity.
Qed.

Lemma all_units_strip_leading p s :
  all_units p s = true -> all_units p (strip_leading s) = true.
Proof.
  induction s as [|c t IH]; cbn [strip_leading all_units]; [reflexivity|].
  intros H. apply andb_prop in H as [Hc Ht].
  destruct (Ascii.eqb c "_"); [apply IH, Ht|]. cbn [all_units]. rewrite Hc, Ht. reflexivity.
Qed.

Lemma all_units_strip_trailing p s :
  all_units p s = true -> all_units p (strip_trailing s) = true.
Proof.
  induction s as [|c t IH]; cbn [strip_trailing all_units]; [reflexivity|].
  intros H. apply andb_prop in H as [Hc Ht]. cbv zeta.
  destruct (Ascii.eqb c "_" && (strip_trailing t =? "")); [reflexivity|].
  cbn [all_units]. rewrite Hc, (IH Ht). reflexivity.
Qed.

Lemma all_units_substring p n s :
  all_units p s = true -> all_units p (String.substring 0 n s) = true.
Proof.
  revert s. induction n as [|n IH]; intros [|c t]; cbn [String.substring all_units];
    try reflexivity.
  intros H. apply andb_prop in H as [Hc Ht]. rewrite Hc, (IH t Ht). reflexivity.
Qed.

Lemma length_substring_0 n s : (String.length (String.substring 0 n s) <= n)%nat.
Proof.
  revert s. induction n as [|n IH]; intros [|c t]; cbn [String.substring String.length];
    try lia.
  specialize (IH t). lia.
Qed.

Lemma substring_0_all n s : (String.length s <= n)%nat -> String.substring 0 n s = s.
Proof.
  revert s. induction n as [|n IH]; intros [|c t]; cbn [String.substring String.length];
    try reflexivity; try lia.
  intros H. rewrite IH; [reflexivity|lia].
Qed.

Lemma includes_cons c t :
  JsString.includes (String c t) "__" =
  (Ascii.eqb c "_" &&
   match first_unit t with
   | Some d => Ascii.eqb d "_"
   | None => false
   end) || JsString.includes t "__".
Proof.
  cbn [JsString.includes]. f_equal.
  cbn [String.prefix].
  destruct (Ascii.ascii_dec "_" c) as [<-|Hne].
  - cbn. destruct t as [|d u]; cbn [String.prefix first_unit]; [reflexivity|].
    destruct (Ascii.ascii_dec "_" d) as [<-|Hne].
    + destruct u; reflexivity.
    + symmetry. apply Ascii.eqb_neq. congruence.
  - replace (Ascii.eqb c "_") with false; [reflexivity|].
    symmetry. apply Ascii.eqb_neq. congruence.
Qed.

Lemma replace_runs_spaced b s :
  JsString.includes (replace_runs b s) "__" = false /\
  (b = true -> first_unit (replace_runs b s) <> Some "_"%char).
Proof.
  revert b. induction s as [|c t IH]; intros b; cbn [replace_runs].
  - split; [reflexivity|intros _; discriminate].
  - destruct (is_lower_alnum c) eqn:Hc.
    + assert (Hne : Ascii.eqb c "_" = false).
      { apply Ascii.eqb_neq. intros ->. discriminate Hc. }
      split.
      * rewrite includes_cons, Hne. cbn [andb orb]. apply IH.
      * intros _. cbn [first_unit]. intros [= ->]. discriminate Hne.
    + destruct b; [apply IH|]. split; [|intros H; discriminate H].
      rewrite includes_cons. destruct (IH true) as [Hi Hf]. rewrite Hi.
      specialize (Hf eq_refl). cbn [andb].
      destruct (first_unit (replace_runs true t)) as [d|]; [|reflexivity].
      replace (Ascii.eqb d "_") with false; [reflexivity|].
      symmetry. apply Ascii.eqb_neq. intros ->. apply Hf. reflexivity.
Qed.

Lemma includes_tail c t :
  JsString.includes (String c t) "__" = false -> JsString.includes t "__" = false.
Proof. rewrite includes_cons. intros H. apply orb_false_elim in H as [_ H]. exact H. Qed.

Lemma strip_leading_spaced s :
  JsString.includes s "__" = false -> JsString.includes (strip_leading s) "__" = false.
Proof.
  induction s as [|c t IH]; cbn [strip_leading]; [intros H; exact H|].
  intros H. destruct (Ascii.eqb c "_"); [apply IH, (includes_tail _ _ H)|exact H].
Qed.

Lemma strip_leading_first s : first_unit (strip_leading s) <> Some "_"%char.
Proof.
  induction s as [|c t IH]; cbn [strip_leading]; [discriminate|].
  destruct (Ascii.eqb c "_") eqn:Hc; [exact IH|].
  cbn [first_unit]. intros [= ->]. discriminate Hc.
Qed.

Lemma prefix_spaced p q :
  JsString.includes (p ++ q) "__" = false -> JsString.includes p "__" = false.
Proof.
  induction p as [|c p IH]; [intros _; reflexivity|].
  change (String c p ++ q) with (String c (p ++ q)).
  rewrite !includes_cons. intros H. apply orb_false_elim in H as [H1 H2].
  rewrite (IH H2), orb_false_r.
  destruct (Ascii.eqb c "_"); [|reflexivity]. cbn [andb] in *.
  destruct p as [|d p]; [reflexivity|exact H1].
Qed.

Lemma prefix_first p q :
  first_unit (p ++ q) <> Some "_"%char -> first_unit p <> Some "_"%char.
Proof. destruct p as [|c p]; [intros _; discriminate|intros H; exact H]. Qed.

Lemma strip_trailing_is_prefix s : exists q, s = strip_trailing s ++ q.
Proof.
  induction s as [|c t [q IH]]; cbn [strip_trailing]; [exists ""; reflexivity|].
  cbv zeta. destruct (Ascii.eqb c "_" && (strip_trailing t =? "")).
  - exists (String c t). reflexivity.
  - exists q. cbn. rewrite <- IH. reflexivity.
Qed.

Lemma substring_is_prefix n s : exists q, s = String.substring 0 n s ++ q.
Proof.
  revert s. induction n as [|n IH]; intros [|c t]; cbn [String.substring].
  - exists "". reflexivity.
  - exists (String c t). reflexivity.
  - exists "". reflexivity.
  - destruct (IH t) as [q Hq]. exists q. cbn. rewrite <- Hq. reflexivity.
Qed.

Lemma strip_trailing_last s : last_unit (strip_trailing s) <> Some "_"%char.
Proof.
  induction s as [|c t IH]; cbn [strip_trailing]; [discriminate|]. cbv zeta.
  destruct (Ascii.eqb c "_") eqn:Hc; cbn [andb].
  - destruct (strip_trailing t) as [|d u]; [discriminate|]. exact IH.
  - destruct (strip_trailing t) as [|d u]; [|exact IH].
    cbn. intros [= ->]. discriminate Hc.
Qed.

Lemma length_replace_runs b s :
  (String.length (replace_runs b s) <= String.length s)%nat.
Proof.
  revert b. induction s as [|c t IH]; intros b; cbn [replace_runs String.length]; [lia|].
  destruct (is_lower_alnum c); [specialize (IH false); cbn; lia|].
  destruct b; specialize (IH true); cbn; lia.
Qed.

Lemma length_strip_leading s : (String.length (strip_leading s) <= String.length s)%nat.
Proof.
  induction s as [|c t IH]; cbn [strip_leading String.length]; [lia|].
  destruct (Ascii.eqb c "_"); cbn; lia.
Qed.

Lemma length_strip_trailing s : (String.length (strip_trailing s) <= String.length s)%nat.
Proof.
  induction s as [|c t IH]; cbn [strip_trailing String.length]; [lia|]. cbv zeta.
  destruct (Ascii.eqb c "_" && (strip_trailing t =? "")); cbn; lia.
Qed.

End Sanitize.

(** X12: a name made by [sanitizeForFilename] holds only [a-z], [0-9] and
    the underscore, is no longer than [maxLength] (50 when left out), does
    not begin with an underscore and has no two underscores in a row. *)
Theorem X12_sanitized_name_is_safe (text : string) (maxLength : option Z) :
  let name := sanitizeForFilename text maxLength in
  all_units is_filename_unit name = true /\
  Z.of_nat (String.length name) <= Z.max 0 (default 50 maxLength) /\
  first_unit name <> Some "_"%char /\
  JsString.includes name "__" = false.
Proof.
  cbv zeta. unfold sanitizeForFilename.
  set (lowered := JsString.toLowerCase text).
  set (n := Z.to_nat (default 50 maxLength)).
  destruct (replace_runs_spaced false lowered) as [Hsp _].
  pose proof (strip_leading_spaced _ Hsp) as Hsp1.
  pose proof (strip_leading_first (replace_runs false lowered)) as Hf1.
  set (trimmed := strip_leading (replace_runs false lowered)) in *.
  destruct (strip_trailing_is_prefix trimmed) as [q Hq].
  destruct (substring_is_prefix n (strip_trailing trimmed)) as [q' Hq'].
  repeat split.
  - apply all_units_substring, all_units_strip_trailing, all_units_strip_leading,
      all_units_replace_runs.
  - pose proof (length_substring_0 n (strip_trailing trimmed)). unfold n in *. lia.
  - apply (prefix_first _ q'). rewrite <- Hq'. apply (prefix_first _ q). rewrite <- Hq.
    exact Hf1.
  - apply (prefix_spaced _ q'). rewrite <- Hq'. apply (prefix_spaced _ q). rewrite <- Hq.
    exact Hsp1.
Qed.

(** X13: when [maxLength] is at least the length of the lower-cased text,
    nothing is cut off: the name is then no longer than the lower-cased text
    and does not end with an underscore either. (The length is that of
    [text.toLowerCase()], not of [text]: lower-casing can lengthen a text,
    and nothing here depends on what it does.) *)
Theorem X13_uncut_name_is_trimmed (text : string) (maxLength : option Z) :
  Z.of_nat (String.length (JsString.toLowerCase text)) <= default 50 maxLength ->
  let name := sanitizeForFilename text maxLength in
  last_unit name <> Some "_"%char /\
  (String.length name <= String.length (JsString.toLowerCase text))%nat.
Proof.
  intros Hfit. cbv zeta. unfold sanitizeForFilename.
  set (lowered := JsString.toLowerCase text) in *.
  assert (Hlen : (String.length (strip_trailing (strip_leading (replace_runs false lowered)))
                  <= String.length lowered)%nat).
  { pose proof (length_strip_trailing (strip_leading (replace_runs false lowered))).
    pose proof (length_strip_leading (replace_runs false lowered)).
    pose proof (length_replace_runs false lowered). lia. }
  rewrite substring_0_all by lia.
  split; [apply strip_trailing_last|exact Hlen].
Qed.

Lemma X13_uncut_name_is_trimmed_witness :
  Z.of_nat (String.length (JsString.toLowerCase "A cat, on a MAT!")) <= default 50 None /\
  last_unit (sanitizeForFilename "A cat, on a MAT!" None) <> Some "_"%char.
Proof.
  split; [vm_compute; discriminate|].
  refine (proj1 (X13_uncut_name_is_trimmed "A cat, on a MAT!" None _)).
  vm_compute; discriminate.
Defined.

(* ================================================================== *)
(** * The format of an API key *)

Section KeyFormat.

Lemma prefix_split p s :
  String.prefix p s = true -> s = p ++ JsString.substring_from (String.length p) s.
Proof.
  revert s. induction p as [|c p IH]; intros s H; [reflexivity|].
  destruct (prefix_cons _ _ _ H) as (t & -> & Ht).
  cbn. f_equal. apply IH, Ht.
Qed.

Lemma substring_from_app p s :
  JsString.substring_from (String.length p) (p ++ s) = s.
Proof. induction p as [|c p IH]; [reflexivity|exact IH]. Qed.

Lemma all_units_app f p s :
  all_units f (p ++ s) = all_units f p && all_units f s.
Proof.
  induction p as [|c p IH]; cbn [append all_units]; [reflexivity|].
  rewrite IH, andb_assoc. reflexivity.
Qed.

Lemma length_app_string p s :
  String.length (p ++ s) = (String.length p + String.length s)%nat.
Proof. induction p as [|c p IH]; cbn; [reflexivity|]. rewrite IH. reflexivity. Qed.

End KeyFormat.

(** X14: [validateApiKeyFormat] accepts exactly the keys that are [sk-]
    followed by 40 or more units of [A-Za-z0-9_-]: the optional [proj-] of
    the pattern adds nothing, its letters and its hyphen are in the class.
    An accepted key is thus 43 units long at least. *)
Theorem X14_key_format (apiKey : string) :
  validateApiKeyFormat apiKey = true <->
  exists tail, apiKey = "sk-" ++ tail /\
               all_units is_key_char tail = true /\
               (40 <= String.length tail)%nat.
Proof.
  unfold validateApiKeyFormat. split.
  - destruct (negb (truthy apiKey)); [discriminate|].
    intros H. apply andb_prop in H as [Hsk H].
    pose proof (prefix_split "sk-" apiKey Hsk) as Hsplit. cbn [String.length] in Hsplit.
    exists (JsString.substring_from 3 apiKey). split; [exact Hsplit|].
    set (rest := JsString.substring_from 3 apiKey) in *.
    apply orb_prop in H as [H|H].
    + apply andb_prop in H as [Hproj Htail].
      pose proof (prefix_split "proj-" rest Hproj) as Hrest. cbn [String.length] in Hrest.
      unfold key_tail in Htail. apply andb_prop in Htail as [Hall Hlen].
      apply Nat.leb_le in Hlen.
      rewrite Hrest, all_units_app, length_app_string, Hall. cbn [String.length].
      split; [reflexivity|lia].
    + unfold key_tail in H. apply andb_prop in H as [Hall Hlen].
      apply Nat.leb_le in Hlen. split; assumption.
  - intros (tail & -> & Hall & Hlen).
    change (truthy ("sk-" ++ tail)) with true. cbn [negb].
    unfold JsString.startsWith at 1. rewrite prefix_app. cbn [andb].
    change 3%nat with (String.length "sk-"). rewrite substring_from_app.
    unfold key_tail at 2. rewrite Hall. apply Nat.leb_le in Hlen. rewrite Hlen.
    apply orb_true_r.
Qed.

(* ================================================================== *)
(** * Files *)

Section FileChecks.

Lemma toString_eq buffer s :
  (toString buffer =? s) = true -> buffer = list_byte_of_string s.
Proof.
  intros H. apply String.eqb_eq in H. rewrite <- H. unfold toString.
  symmetry. apply list_byte_of_string_of_list_byte.
Qed.

Lemma array_includes_In xs s : JsString.array_includes xs s = true <-> In s xs.
Proof.
  unfold JsString.array_includes. rewrite existsb_exists. split.
  - intros (x & Hin & Heq). apply String.eqb_eq in Heq. subst x. exact Hin.
  - intros Hin. exists s. split; [exact Hin|apply String.eqb_refl].
Qed.

Lemma length_snoc {A : Type} (xs : list A) (x : A) :
  (List.length (xs ++ [x])%list =? 0)%nat = false.
Proof. rewrite length_app. cbn [List.length]. apply Nat.eqb_neq. lia. Qed.

Lemma signature_length s : In s validSignatures -> List.length (list_byte_of_string s) = 4%nat.
Proof.
  unfold validSignatures. cbn [In].
  intros [<-|[<-|[<-|[<-|[<-|[<-|[]]]]]]]; reflexivity.
Qed.

Lemma slice_middle (head mid rest : list Byte.byte) :
  slice (List.length head) (List.length head + List.length mid) (head ++ mid ++ rest)%list = mid.
Proof.
  unfold slice. rewrite skipn_app, skipn_all, Nat.sub_diag. cbn [skipn app].
  replace (List.length head + List.length mid - List.length head)%nat
    with (List.length mid + 0)%nat by lia.
  rewrite firstn_app_2. cbn [firstn]. apply app_nil_r.
Qed.

Lemma slice_split a b (buffer : list Byte.byte) :
  (a <= b)%nat -> (b <= List.length buffer)%nat ->
  buffer = (firstn a buffer ++ slice a b buffer ++ skipn (b - a) (skipn a buffer))%list /\
  List.length (firstn a buffer) = a.
Proof.
  intros Hab Hb. unfold slice. split.
  - rewrite (firstn_skipn (b - a) (skipn a buffer)), (firstn_skipn a buffer). reflexivity.
  - rewrite length_firstn. lia.
Qed.

End FileChecks.

(** X15: [validateVideoFile] finds a download valid exactly when it is a
    buffer whose bytes 4 to 7 spell one of [ftyp], [mdat], [moov], [wide],
    [free] and [skip] and, where a non-zero [maxSize] is given, that is no
    longer than it. The first four bytes and all after the eighth are not
    looked at. *)
Theorem X15_valid_video_file (buffer : option (list Byte.byte)) (maxSize : option Z) :
  file_valid (validateVideoFile buffer maxSize) = true <->
  exists head signature rest,
    buffer = Some (head ++ list_byte_of_string signature ++ rest)%list /\
    List.length head = 4%nat /\
    In signature validSignatures /\
    (forall m, maxSize = Some m -> m <> 0 ->
       Z.of_nat (List.length (head ++ list_byte_of_string signature ++ rest)%list) <= m).
Proof.
  unfold validateVideoFile. split.
  - destruct buffer as [b|]; [|discriminate].
    destruct (List.length b =? 0)%nat; [discriminate|]. cbv zeta.
    destruct (Nat.leb_spec 8 (List.length b)) as [Hlen|Hlen];
      [|cbn [file_valid]; rewrite length_snoc; discriminate].
    destruct (JsString.array_includes validSignatures (toString (slice 4 8 b))) eqn:Hsig;
      cbn [negb file_valid]; [|rewrite length_snoc; discriminate].
    intros Hok.
    destruct (slice_split 4 8 b) as [Hsplit Hhead]; [lia|lia|].
    exists (firstn 4 b), (toString (slice 4 8 b)), (skipn (8 - 4) (skipn 4 b)).
    unfold toString in *. rewrite !list_byte_of_string_of_list_byte, <- Hsplit.
    repeat split; [exact Hhead|apply array_includes_In, Hsig|].
    intros m -> Hm. destruct (Z.eqb_spec m 0) as [E|_]; [contradiction|].
    cbn [negb andb] in Hok.
    destruct (Z.gtb_spec (Z.of_nat (List.length b)) m) as [Hgt|Hle]; [discriminate Hok|lia].
  - intros (head & signature & rest & -> & Hhead & Hin & Hsize).
    pose proof (signature_length signature Hin) as Hsiglen.
    set (b := (head ++ list_byte_of_string signature ++ rest)%list) in *.
    assert (Hlen : List.length b = (8 + List.length rest)%nat).
    { unfold b. rewrite !length_app. lia. }
    destruct (Nat.eqb_spec (List.length b) 0) as [H0|_]; [lia|]. cbv zeta.
    destruct (Nat.leb_spec 8 (List.length b)) as [_|Hlt]; [|lia].
    assert (Hslice : slice 4 8 b = list_byte_of_string signature).
    { pose proof (slice_middle head (list_byte_of_string signature) rest) as Hmid.
      rewrite Hhead, Hsiglen in Hmid. exact Hmid. }
    rewrite Hslice. unfold toString. rewrite string_of_list_byte_of_string.
    apply array_includes_In in Hin. rewrite Hin. cbn [negb file_valid].
    destruct maxSize as [m|]; [|reflexivity].
    destruct (Z.eqb_spec m 0) as [->|Hm]; [reflexivity|]. cbn [negb andb].
    specialize (Hsize m eq_refl Hm).
    destruct (Z.gtb_spec (Z.of_nat (List.length b)) m) as [Hgt|Hle]; [lia|reflexivity].
Qed.

Section ImageChecks.

Lemma byte_is_head (b : Byte.byte) (rest : list Byte.byte) (v : Byte.byte) :
  byte_is (b :: rest) 0 v = true -> b = v.
Proof. cbn [byte_is nth_error]. apply Byte.byte_dec_bl. Qed.

Lemma byte_is_tail (b : Byte.byte) (rest : list Byte.byte) (i : nat) (v : Byte.byte) :
  byte_is (b :: rest) (S i) v = byte_is rest i v.
Proof. reflexivity. Qed.

Lemma byte_is_nil (i : nat) (v : Byte.byte) : byte_is [] i v = false.
Proof. destruct i; reflexivity. Qed.

Lemma starts_with_png (m : list Byte.byte) :
  byte_is m 0 Byte.x89 && byte_is m 1 Byte.x50 && byte_is m 2 Byte.x4e &&
  byte_is m 3 Byte.x47 = true ->
  exists rest, m = ([Byte.x89; Byte.x50; Byte.x4e; Byte.x47] ++ rest)%list.
Proof.
  intros H. apply andb_prop in H as [H H3]. apply andb_prop in H as [H H2].
  apply andb_prop in H as [H0 H1].
  destruct m as [|b0 m]; [rewrite byte_is_nil in H0; discriminate H0|].
  apply byte_is_head in H0. rewrite byte_is_tail in H1, H2, H3.
  destruct m as [|b1 m]; [rewrite byte_is_nil in H1; discriminate H1|].
  apply byte_is_head in H1. rewrite byte_is_tail in H2, H3.
  destruct m as [|b2 m]; [rewrite byte_is_nil in H2; discriminate H2|].
  apply byte_is_head in H2. rewrite byte_is_tail in H3.
  destruct m as [|b3 m]; [rewrite byte_is_nil in H3; discriminate H3|].
  apply byte_is_head in H3. subst. exists m. reflexivity.
Qed.

Lemma starts_with_jpeg (m : list Byte.byte) :
  byte_is m 0 Byte.xff && byte_is m 1 Byte.xd8 && byte_is m 2 Byte.xff = true ->
  exists rest, m = ([Byte.xff; Byte.xd8; Byte.xff] ++ rest)%list.
Proof.
  intros H. apply andb_prop in H as [H H2]. apply andb_prop in H as [H0 H1].
  destruct m as [|b0 m]; [rewrite byte_is_nil in H0; discriminate H0|].
  apply byte_is_head in H0. rewrite byte_is_tail in H1, H2.
  destruct m as [|b1 m]; [rewrite byte_is_nil in H1; discriminate H1|].
  apply byte_is_head in H1. rewrite byte_is_tail in H2.
  destruct m as [|b2 m]; [rewrite byte_is_nil in H2; discriminate H2|].
  apply byte_is_head in H2. subst. exists m. reflexivity.
Qed.

(** A slice from the start that is as long as asked is a prefix. *)
Lemma slice_0_prefix n (buffer : list Byte.byte) :
  exists rest, buffer = (slice 0 n buffer ++ rest)%list.
Proof.
  exists (skipn n buffer). unfold slice. rewrite Nat.sub_0_r. cbn [skipn].
  symmetry. apply firstn_skipn.
Qed.

Lemma slice_inner a b (buffer : list Byte.byte) :
  slice a b buffer <> [] ->
  exists head rest,
    List.length head = a /\ buffer = (head ++ slice a b buffer ++ rest)%list.
Proof.
  intros Hne.
  destruct (Nat.le_gt_cases (List.length buffer) a) as [Hshort|Hlong].
  - exfalso. apply Hne. unfold slice. rewrite skipn_all2 by exact Hshort.
    apply firstn_nil.
  - exists (firstn a buffer), (skipn (b - a) (skipn a buffer)). split.
    + rewrite length_firstn. lia.
    + unfold slice. rewrite (firstn_skipn (b - a) (skipn a buffer)), (firstn_skipn a buffer).
      reflexivity.
Qed.

End ImageChecks.

Lemma validateImagePath_accepts {F : FileSystem}
    (env : nat -> Suspension) (filepath : string) (w : World) (p : string) (w' : World) :
  validateImagePath env filepath w = (inr p, w') ->
  p = filepath /\ requests w' = requests w /\
  exists buffer, readFile filepath = inr buffer /\ image_signature buffer.
Proof.
  unfold validateImagePath, await_readFile, image_signature.
  destruct (readFile filepath) as [error|buffer].
  - destruct (fs_code error) as [code|]; [|intros H; discriminate H].
    destruct (code =? "ENOENT"); [intros H; discriminate H|].
    destruct (code =? "EACCES"); intros H; discriminate H.
  - destruct (List.length buffer =? 0)%nat; [intros H; discriminate H|]. cbv zeta.
    set (magicBytes := slice 0 4 buffer).
    destruct (byte_is magicBytes 0 Byte.x89 && byte_is magicBytes 1 Byte.x50 &&
              byte_is magicBytes 2 Byte.x4e && byte_is magicBytes 3 Byte.x47) eqn:Hpng.
    { cbn [negb andb]. intros [= <- <-]. cbn [requests]. repeat split.
      exists buffer. split; [reflexivity|left].
      destruct (starts_with_png _ Hpng) as [r1 Hr1].
      destruct (slice_0_prefix 4 buffer) as [r2 Hr2].
      exists (r1 ++ r2)%list. rewrite Hr2 at 1. fold magicBytes. rewrite Hr1.
      rewrite <- app_assoc. reflexivity. }
    destruct (byte_is magicBytes 0 Byte.xff && byte_is magicBytes 1 Byte.xd8 &&
              byte_is magicBytes 2 Byte.xff) eqn:Hjpeg.
    { cbn [negb andb]. intros [= <- <-]. cbn [requests]. repeat split.
      exists buffer. split; [reflexivity|right; left].
      destruct (starts_with_jpeg _ Hjpeg) as [r1 Hr1].
      destruct (slice_0_prefix 4 buffer) as [r2 Hr2].
      exists (r1 ++ r2)%list. rewrite Hr2 at 1. fold magicBytes. rewrite Hr1.
      rewrite <- app_assoc. reflexivity. }
    destruct (toString (slice 8 12 buffer) =? "WEBP") eqn:Hwebp.
    { cbn [negb andb]. intros [= <- <-]. cbn [requests]. repeat split.
      exists buffer. split; [reflexivity|right; right; right].
      apply toString_eq in Hwebp.
      destruct (slice_inner 8 12 buffer) as (head & rest & Hhead & Hbuf).
      - rewrite Hwebp. discriminate.
      - exists head, rest. split; [exact Hhead|]. rewrite <- Hwebp. exact Hbuf. }
    destruct (toString (slice 0 3 magicBytes) =? "GIF") eqn:Hgif;
      cbn [negb andb]; [|intros H; discriminate H].
    intros [= <- <-]. cbn [requests]. repeat split.
    exists buffer. split; [reflexivity|right; right; left].
    apply toString_eq in Hgif.
    destruct (slice_0_prefix 3 magicBytes) as [r1 Hr1].
    destruct (slice_0_prefix 4 buffer) as [r2 Hr2].
    exists (r1 ++ r2)%list. rewrite Hr2 at 1. fold magicBytes. rewrite Hr1 at 1.
    rewrite Hgif, <- app_assoc. reflexivity.
Qed.

(** X16: a path [validateImagePath] accepts is returned as given, and the
    file there could be read and begins with the PNG signature, with
    [FF D8 FF], or with [GIF], or has [WEBP] at offset 8. The check issues
    no request. *)
Theorem X16_accepted_image_has_a_signature {F : FileSystem}
    (env : nat -> Suspension) (filepath : string) (w : World) (p : string) (w' : World) :
  validateImagePath env filepath w = (inr p, w') ->
  p = filepath /\ requests w' = requests w /\
  exists buffer, readFile filepath = inr buffer /\
    ((exists rest, buffer = ([Byte.x89; Byte.x50; Byte.x4e; Byte.x47] ++ rest)%list) \/
     (exists rest, buffer = ([Byte.xff; Byte.xd8; Byte.xff] ++ rest)%list) \/
     (exists rest, buffer = (list_byte_of_string "GIF" ++ rest)%list) \/
     (exists head rest, List.length head = 8%nat /\
                        buffer = (head ++ list_byte_of_string "WEBP" ++ rest)%list)).
Proof. exact (validateImagePath_accepts env filepath w p w'). Qed.

Lemma X16_accepted_image_has_a_signature_witness :
  validateImagePath (F := one_file "frame.gif" (list_byte_of_string "GIF89a"))
    (quiet (Resolved (in_progress 10))) "frame.gif" (boot 1000) =
    (inr "frame.gif",
     snd (validateImagePath (F := one_file "frame.gif" (list_byte_of_string "GIF89a"))
            (quiet (Resolved (in_progress 10))) "frame.gif" (boot 1000))) /\
  requests (snd (validateImagePath (F := one_file "frame.gif" (list_byte_of_string "GIF89a"))
                   (quiet (Resolved (in_progress 10))) "frame.gif" (boot 1000))) =
  requests (boot 1000).
Proof.
  split; [reflexivity|].
  exact (proj1 (proj2 (X16_accepted_image_has_a_signature
                         (F := one_file "frame.gif" (list_byte_of_string "GIF89a"))
                         (quiet (Resolved (in_progress 10))) "frame.gif" (boot 1000)
                         "frame.gif" _ eq_refl))).
Defined.

(* ================================================================== *)
(** * What the methods let through *)

Section Guard.
Context {F : FileSystem}.
Variable env : nat -> Suspension.
Variable penv : ProcessEnv.

(** A request with one of the three verbs is one transport call. *)
Lemma makeRequest_counts method signal this w :
  In method ["GET"; "POST"; "DELETE"] ->
  requests (snd (_makeRequest env penv method signal this w)) = S (requests w).
Proof.
  intros Hm. unfold _makeRequest.
  assert (Hreq : requests (snd (pace env this w)) = requests w).
  { unfold pace. cbn [snd]. destruct (pacing_delay this w); reflexivity. }
  destruct (pace env this w) as [this1 w1]. cbn [snd] in Hreq.
  assert (Hverb : (JsString.toUpperCase method =? "GET") ||
                  (JsString.toUpperCase method =? "POST") ||
                  (JsString.toUpperCase method =? "DELETE") = true).
  { cbn [In] in Hm. destruct Hm as [<-|[<-|[<-|[]]]]; reflexivity. }
  rewrite Hverb. unfold await_transport.
  destruct (reply (env (pos w1))); cbn [snd requests]; lia.
Qed.

Lemma empty_errors {A : Type} (xs : list A) : (List.length xs =? 0)%nat = true -> xs = [].
Proof. destruct xs; [reflexivity|discriminate]. Qed.

Lemma no_error (b : bool) (message : string) :
  (if b then [message] else []) = [] -> b = false.
Proof. destruct b; [discriminate|reflexivity]. Qed.

Lemma within_list xs s :
  truthy s && negb (JsString.array_includes xs s) = false -> s = "" \/ In s xs.
Proof.
  unfold truthy. destruct (String.eqb_spec s "") as [Hs|_]; [left; exact Hs|].
  cbn [negb andb]. destruct (JsString.array_includes xs s) eqn:Hin; [|discriminate].
  right. apply array_includes_In, Hin.
Qed.

(** What a passed validation tells about the parameters. *)
Lemma validated_params model params validation :
  validateVideoParams model params = inr validation ->
  valid validation = true ->
  (In model ["sora-2"; "sora-2-pro"] /\ sendable params) \/
  (In model object_prototype_keys /\ bare params).
Proof.
  unfold validateVideoParams, VIDEO_MODEL_CONSTRAINTS.
  change sora_2_pro with sora_2.
  assert (Hown : (model =? "sora-2") || (model =? "sora-2-pro") = true ->
                 In model ["sora-2"; "sora-2-pro"]).
  { intros H. apply orb_prop in H as [H|H]; apply String.eqb_eq in H; subst; cbn; auto. }
  destruct ((model =? "sora-2") || (model =? "sora-2-pro")) eqn:Hm.
  - assert (Hlook : (if model =? "sora-2" then Own sora_2
                     else if model =? "sora-2-pro" then Own sora_2
                     else if JsString.array_includes object_prototype_keys model
                     then Inherited else Absent) = Own sora_2).
    { destruct (model =? "sora-2"); [reflexivity|].
      destruct (model =? "sora-2-pro"); [reflexivity|discriminate Hm]. }
    rewrite Hlook. cbv zeta. intros [= <-]. cbn [valid]. intros Hvalid.
    apply empty_errors in Hvalid.
    apply app_eq_nil in Hvalid as [E1 Hvalid]. apply app_eq_nil in Hvalid as [E2 Hvalid].
    apply app_eq_nil in Hvalid as [E3 Hvalid]. apply app_eq_nil in Hvalid as [E4 E5].
    left. split; [apply Hown; reflexivity|]. unfold sendable. repeat split.
    + intros prompt Hp. rewrite Hp in E1. cbn [c_promptMaxLength sora_2] in E1.
      unfold truthy in E1. destruct (String.eqb_spec prompt "") as [Hempty|_];
        [rewrite Hempty; cbn; lia|].
      cbn [negb andb] in E1. apply no_error in E1.
      destruct (Z.gtb_spec (Z.of_nat (String.length prompt)) 10000) as [Hgt|Hle];
        [discriminate E1|exact Hle].
    + intros size Hs. rewrite Hs in E2.
      apply no_error, (within_list (c_sizes sora_2)) in E2. exact E2.
    + intros seconds Hs. rewrite Hs in E3. cbn [c_seconds sora_2] in E3.
      apply no_error, negb_false_iff in E3. rename E3 into Hin.
      destruct (secondsNum seconds) as [z|]; [|discriminate Hin].
      cbn [number_includes existsb] in Hin.
      destruct (Z.eqb_spec z 4) as [E|_]; [left; f_equal; exact E|].
      destruct (Z.eqb_spec z 8) as [E|_]; [right; left; f_equal; exact E|].
      destruct (Z.eqb_spec z 12) as [E|_]; [right; right; f_equal; exact E|discriminate Hin].
    + intros quality Hq. rewrite Hq in E4.
      apply no_error, (within_list (c_quality sora_2)) in E4.
      destruct E4 as [H|H]; [left; exact H|right].
      cbn [In] in H. destruct H as [H|[]]. symmetry. exact H.
    + intros variant Hv. rewrite Hv in E5.
      apply no_error, (within_list (c_variants sora_2)) in E5. exact E5.
  - apply orb_false_elim in Hm as [Hm1 Hm2]. rewrite Hm1, Hm2.
    destruct (JsString.array_includes object_prototype_keys model) eqn:Hproto.
    + destruct (truthy_opt (p_size params)) eqn:Hsize; [discriminate|].
      destruct (p_seconds params) as [seconds|] eqn:Hsec; [discriminate|].
      destruct (truthy_opt (p_quality params)) eqn:Hq; [discriminate|].
      destruct (truthy_opt (p_variant params)) eqn:Hv; [discriminate|].
      intros _ _. right. split; [apply array_includes_In, Hproto|].
      unfold bare. rewrite Hsize, Hsec, Hq, Hv. repeat split.
    + intros [= <-]. cbn [valid]. discriminate.
Qed.

Lemma createVideo_guard params this w :
  let '(_, this', w') := createVideo env penv params this w in
  (requests w' = requests w /\ this' = this) \/
  (requests w' = S (requests w) /\
   apiKey this <> "" /\
   (exists prompt, p_prompt params = Some prompt /\ prompt <> "") /\
   ((In (default "sora-2" (p_model params)) ["sora-2"; "sora-2-pro"] /\ sendable params) \/
    (In (default "sora-2" (p_model params)) object_prototype_keys /\ bare params)) /\
   (forall path, p_input_reference params = Some path -> path <> "" ->
      exists buffer, readFile path = inr buffer /\ image_signature buffer)).
Proof.
  unfold createVideo, _verifyApiKey, truthy.
  destruct (String.eqb_spec (apiKey this) "") as [_|Hkey]; cbn [negb];
    [left; split; reflexivity|].
  destruct (p_prompt params) as [prompt|] eqn:Hprompt; cbn [truthy_opt negb];
    [|left; split; reflexivity].
  unfold truthy. destruct (String.eqb_spec prompt "") as [_|Hp]; cbn [negb];
    [left; split; reflexivity|].
  destruct (validateVideoParams (default "sora-2" (p_model params)) params)
    as [e|validation] eqn:Hval; [left; split; reflexivity|].
  destruct (valid validation) eqn:Hvalid; cbn [negb]; [|left; split; reflexivity].
  pose proof (validated_params _ _ _ Hval Hvalid) as Hparams.
  assert (Hsend : forall w0,
            requests w0 = requests w ->
            (forall path, p_input_reference params = Some path -> path <> "" ->
               exists buffer, readFile path = inr buffer /\ image_signature buffer) ->
            let '(_, this', w') := _makeRequest env penv "POST" None this w0 in
            (requests w' = requests w /\ this' = this) \/
            (requests w' = S (requests w) /\ apiKey this <> "" /\
             (exists given, Some prompt = Some given /\ given <> "") /\
             ((In (default "sora-2" (p_model params)) ["sora-2"; "sora-2-pro"] /\
               sendable params) \/
              (In (default "sora-2" (p_model params)) object_prototype_keys /\
               bare params)) /\
             (forall path, p_input_reference params = Some path -> path <> "" ->
                exists buffer, readFile path = inr buffer /\ image_signature buffer))).
  { intros w0 Hw0 Himg.
    pose proof (makeRequest_counts "POST" None this w0) as Hcount.
    destruct (_makeRequest env penv "POST" None this w0) as [[o this'] w'].
    cbn [snd] in Hcount. right. rewrite Hcount by (cbn; auto). rewrite Hw0.
    split; [reflexivity|]. split; [exact Hkey|].
    split; [exists prompt; split; [reflexivity|exact Hp]|].
    split; [exact Hparams|exact Himg]. }
  destruct (p_input_reference params) as [input_reference|] eqn:Href.
  - unfold truthy. destruct (String.eqb_spec input_reference "") as [->|Hne]; cbn [negb].
    + apply (Hsend w eq_refl). intros path [= <-] Hpath. contradiction.
    + destruct (validateImagePath env input_reference w) as [[e|p] w1] eqn:Himg.
      * left. split; [|reflexivity].
        unfold validateImagePath, await_readFile in Himg.
        destruct (readFile input_reference) as [error|buffer].
        -- destruct (fs_code error) as [code|]; [|injection Himg as _ <-; reflexivity].
           destruct (code =? "ENOENT"); [injection Himg as _ <-; reflexivity|].
           destruct (code =? "EACCES"); injection Himg as _ <-; reflexivity.
        -- destruct (List.length buffer =? 0)%nat; [injection Himg as _ <-; reflexivity|].
           cbv zeta in Himg. destruct (negb _ && negb _ && negb _ && negb _) in Himg;
             [injection Himg as _ <-; reflexivity|discriminate Himg].
      * destruct (validateImagePath_accepts env _ _ _ _ Himg) as (_ & Hreq & Hbuf).
        apply (Hsend w1 Hreq). intros path [= <-] _. exact Hbuf.
  - apply (Hsend w eq_refl). intros path Hpath. discriminate Hpath.
Qed.

End Guard.

(** X17: [createVideo] sends one request or none. It sends one only with a
    key, a non-empty prompt and parameters that passed the validator: under
    [sora-2] or [sora-2-pro] (the default is [sora-2]) a prompt of at most
    10000 units, a size among the four listed, a duration that is or
    parses to 4, 8 or 12, the quality [standard] and a listed variant, each
    where given and not empty; a reference image, where given, that could
    be read and carries an image signature. The one other way through is a
    model name that [Object.prototype] answers to, with no size, duration,
    quality or variant set. A refused call leaves the instance as it was. *)
Theorem X17_createVideo_sends_only_validated {F : FileSystem}
    (env : nat -> Suspension) (penv : ProcessEnv) (params : VideoParams)
    (this : OpenAIVideoAPI) (w : World) :
  let '(_, this', w') := createVideo env penv params this w in
  (requests w' = requests w /\ this' = this) \/
  (requests w' = S (requests w) /\
   apiKey this <> "" /\
   (exists prompt, p_prompt params = Some prompt /\ prompt <> "") /\
   ((In (default "sora-2" (p_model params)) ["sora-2"; "sora-2-pro"] /\ sendable params) \/
    (In (default "sora-2" (p_model params)) object_prototype_keys /\ bare params)) /\
   (forall path, p_input_reference params = Some path -> path <> "" ->
      exists buffer, readFile path = inr buffer /\ image_signature buffer)).
Proof. exact (createVideo_guard env penv params this w). Qed.

Section IdGuards.
Variable env : nat -> Suspension.
Variable penv : ProcessEnv.

Lemma answer_left_out_world r : snd (answer_left_out r) = snd r.
Proof. destruct r as [[o this] w]. reflexivity. Qed.

Lemma remixVideo_guard videoId prompt this w :
  let '(_, this', w') := remixVideo env penv videoId prompt this w in
  (requests w' = requests w /\ this' = this) \/
  (requests w' = S (requests w) /\ apiKey this <> "" /\ videoId <> "" /\
   prompt <> "" /\ Z.of_nat (String.length prompt) <= 10000).
Proof.
  unfold remixVideo, _verifyApiKey, truthy.
  destruct (String.eqb_spec (apiKey this) "") as [_|Hkey]; cbn [negb];
    [left; split; reflexivity|].
  destruct (String.eqb_spec videoId "") as [_|Hid]; cbn [negb];
    [left; split; reflexivity|].
  destruct (String.eqb_spec prompt "") as [_|Hp]; cbn [negb];
    [left; split; reflexivity|].
  destruct (validateVideoParams "sora-2" _) as [e|validation] eqn:Hval;
    [left; split; reflexivity|].
  destruct (valid validation) eqn:Hvalid; cbn [negb]; [|left; split; reflexivity].
  destruct (validated_params _ _ _ Hval Hvalid) as [[_ Hs]|[Hin _]].
  - destruct Hs as (Hlen & _). specialize (Hlen prompt eq_refl).
    pose proof (makeRequest_counts env penv "POST" None this w) as Hcount.
    destruct (_makeRequest env penv "POST" None this w) as [[o this'] w'].
    cbn [snd] in Hcount. right. rewrite Hcount by (cbn; auto). repeat split; assumption.
  - exfalso. cbn [In object_prototype_keys] in Hin.
    repeat (destruct Hin as [Hin|Hin]; [discriminate Hin|]). exact Hin.
Qed.

Lemma deleteVideo_guard videoId this w :
  let '(_, this', w') := deleteVideo env penv videoId this w in
  (requests w' = requests w /\ this' = this) \/
  (requests w' = S (requests w) /\ apiKey this <> "" /\ videoId <> "").
Proof.
  unfold deleteVideo, _verifyApiKey, truthy.
  destruct (String.eqb_spec (apiKey this) "") as [_|Hkey]; cbn [negb];
    [left; split; reflexivity|].
  destruct (String.eqb_spec videoId "") as [_|Hid]; cbn [negb];
    [left; split; reflexivity|].
  pose proof (makeRequest_counts env penv "DELETE" None this w) as Hcount.
  destruct (_makeRequest env penv "DELETE" None this w) as [[o this'] w'].
  cbn [snd answer_left_out] in *. right. rewrite Hcount by (cbn; auto).
  repeat split; assumption.
Qed.

Lemma downloadVideoContent_guard videoId variant this w :
  let '(_, this', w') := downloadVideoContent env penv videoId variant this w in
  (requests w' = requests w /\ this' = this) \/
  (requests w' = S (requests w) /\ apiKey this <> "" /\ videoId <> "" /\
   In (default "video" variant) [""; "video"; "thumbnail"; "spritesheet"]).
Proof.
  unfold downloadVideoContent, _verifyApiKey, truthy.
  destruct (String.eqb_spec (apiKey this) "") as [_|Hkey]; cbn [negb];
    [left; split; reflexivity|].
  destruct (String.eqb_spec videoId "") as [_|Hid]; cbn [negb];
    [left; split; reflexivity|].
  destruct (validateVideoParams "sora-2" _) as [e|validation] eqn:Hval;
    [left; split; reflexivity|].
  destruct (valid validation) eqn:Hvalid; cbn [negb]; [|left; split; reflexivity].
  destruct (validated_params _ _ _ Hval Hvalid) as [[_ Hs]|[Hin _]].
  - destruct Hs as (_ & _ & _ & _ & Hvar). specialize (Hvar _ eq_refl).
    pose proof (makeRequest_counts env penv "GET" None this w) as Hcount.
    destruct (_makeRequest env penv "GET" None this w) as [[o this'] w'].
    cbn [snd answer_left_out] in *. right. rewrite Hcount by (cbn; auto).
    repeat split; try assumption.
    destruct Hvar as [Hv|Hv]; [left; symmetry; exact Hv|right; exact Hv].
  - exfalso. cbn [In object_prototype_keys] in Hin.
    repeat (destruct Hin as [Hin|Hin]; [discriminate Hin|]). exact Hin.
Qed.

End IdGuards.

(** X18: [remixVideo], [deleteVideo] and [downloadVideoContent] send one
    request or none, and one only with a key and a non-empty video id;
    [remixVideo] also only with a non-empty prompt of at most 10000 units,
    [downloadVideoContent] only for the variant [video] (the default),
    [thumbnail], [spritesheet] or the empty text. A refused call leaves the
    instance as it was. *)
Theorem X18_id_methods_send_only_validated
    (env : nat -> Suspension) (penv : ProcessEnv) (videoId prompt : string)
    (variant : option string) (this : OpenAIVideoAPI) (w : World) :
  (let '(_, this', w') := remixVideo env penv videoId prompt this w in
   (requests w' = requests w /\ this' = this) \/
   (requests w' = S (requests w) /\ apiKey this <> "" /\ videoId <> "" /\
    prompt <> "" /\ Z.of_nat (String.length prompt) <= 10000)) /\
  (let '(_, this', w') := deleteVideo env penv videoId this w in
   (requests w' = requests w /\ this' = this) \/
   (requests w' = S (requests w) /\ apiKey this <> "" /\ videoId <> "")) /\
  (let '(_, this', w') := downloadVideoContent env penv videoId variant this w in
   (requests w' = requests w /\ this' = this) \/
   (requests w' = S (requests w) /\ apiKey this <> "" /\ videoId <> "" /\
    In (default "video" variant) [""; "video"; "thumbnail"; "spritesheet"])).
Proof.
  split; [exact (remixVideo_guard env penv videoId prompt this w)|].
  split; [exact (deleteVideo_guard env penv videoId this w)|].
  exact (downloadVideoContent_guard env penv videoId variant this w).
Qed.

(* ================================================================== *)
(** * Creating and waiting in one call *)

Section CreateAndPoll.
Context {F : FileSystem}.
Variable env : nat -> Suspension.
Variable penv : ProcessEnv.

Lemma client_requests_grow videoId signal this w :
  (requests w <=
   requests (snd (OpenAIVideoAPI_retrieveVideo env penv videoId signal this w)))%nat.
Proof.
  unfold OpenAIVideoAPI_retrieveVideo.
  destruct (_verifyApiKey this); [cbn; lia|].
  destruct (negb (truthy videoId)); [cbn; lia|].
  rewrite (makeRequest_counts env penv "GET" signal this w) by (cbn; auto). lia.
Qed.

(** Every status fetch of a session is issued with at least the requests
    the session began with. *)
Lemma client_fetches_follow fuel :
  forall videoId interval timeout signal startTime this w seen fetch,
  In fetch (fetched_in (poll_loop (I := OpenAIVideoAPI_interface penv) env fuel videoId
                       interval timeout signal startTime this w seen)) ->
  In fetch seen \/ (requests w <= requests fetch)%nat.
Proof.
  induction fuel as [|fuel IH]; intros videoId interval timeout signal startTime this w seen fetch;
    cbn [poll_loop]; cbv zeta; [intros H; left; exact H|].
  destruct (signal_aborted signal w); [intros H; left; exact H|].
  destruct (clock w - startTime >? timeout)%Z; [intros H; left; exact H|].
  assert (Hseen : In fetch (seen ++ [w])%list -> In fetch seen \/ (requests w <= requests fetch)%nat).
  { intros H. apply in_app_or in H as [H|[<-|[]]]; [left; exact H|right; lia]. }
  cbn [retrieveVideo OpenAIVideoAPI_interface].
  pose proof (client_requests_grow videoId signal this w) as Hgrow.
  destruct (OpenAIVideoAPI_retrieveVideo env penv videoId signal this w) as [[r this'] w'].
  cbn [snd] in Hgrow.
  destruct r as [video| e |]; [|exact Hseen|exact Hseen].
  destruct (video_status video =? "completed"); [exact Hseen|].
  destruct (video_status video =? "failed"); [exact Hseen|].
  intros H. apply IH in H as [H|H]; [exact (Hseen H)|].
  right. change (requests (pause_ms env interval w')) with (requests w') in H. lia.
Qed.

Lemma createVideo_returns params this w video this1 w1 :
  createVideo env penv params this w = (Return video, this1, w1) ->
  requests w1 = S (requests w).
Proof.
  unfold createVideo.
  destruct (_verifyApiKey this); [discriminate|].
  destruct (negb (truthy_opt (p_prompt params))); [discriminate|].
  destruct (validateVideoParams _ params) as [e|validation]; [discriminate|].
  destruct (negb (valid validation)); [discriminate|].
  assert (Hsend : forall w0, requests w0 = requests w ->
            _makeRequest env penv "POST" None this w0 = (Return video, this1, w1) ->
            requests w1 = S (requests w)).
  { intros w0 Hw0 H. pose proof (makeRequest_counts env penv "POST" None this w0) as Hc.
    rewrite H in Hc. cbn [snd] in Hc. rewrite Hc by (cbn; auto). rewrite Hw0. reflexivity. }
  destruct (p_input_reference params) as [input_reference|]; [|apply Hsend; reflexivity].
  destruct (truthy input_reference); [|apply Hsend; reflexivity].
  destruct (validateImagePath env input_reference w) as [[e|p] w0] eqn:Himg; [discriminate|].
  apply Hsend. exact (proj1 (proj2 (validateImagePath_accepts env _ _ _ _ Himg))).
Qed.

Lemma createAndPoll_bounded n fuel params pollOptions this w :
  default 600000 (timeout pollOptions) < Z.of_nat n * pause_timer (default 10000 (interval pollOptions)) ->
  (n < fuel)%nat ->
  let r := createAndPoll env penv fuel params pollOptions this w in
  outcome r <> OutOfFuel /\
  (requests (final_world r) <= requests w + S n)%nat /\
  (forall at_fetch, In at_fetch (fetched_in r) -> (requests w < requests at_fetch)%nat) /\
  (forall video, outcome r = Return video -> video_status video = "completed").
Proof.
  intros Hn Hfuel. cbv zeta. unfold createAndPoll.
  pose proof (createVideo_guard env penv params this w) as Hguard.
  destruct (createVideo env penv params this w) as [[o this1] w1] eqn:Hcreate.
  assert (Hone : (requests w1 <= S (requests w))%nat).
  { destruct Hguard as [[H _]|[H _]]; lia. }
  destruct o as [video| e |].
  - apply createVideo_returns in Hcreate.
    destruct (waitForVideo_bounded env penv n fuel (video_id video) pollOptions this1 w1
                Hn Hfuel) as (H1 & H2 & H3).
    pose proof (waitForVideo_outcomes env penv fuel (video_id video) pollOptions this1 w1)
      as Hout.
    cbv zeta in Hout. repeat split.
    + exact H1.
    + lia.
    + intros at_fetch Hin. unfold waitForVideo in Hin.
      destruct (_verifyApiKey this1); [destruct Hin|].
      destruct (negb (truthy (video_id video))); [destruct Hin|].
      unfold pollVideoWithProgress in Hin.
      apply client_fetches_follow in Hin as [[]|Hin]. lia.
    + intros v Hv. rewrite Hv in Hout. exact Hout.
  - cbn. repeat split; [discriminate|lia|intros ? []|intros ? H; discriminate H].
  - exfalso. unfold createVideo in Hcreate.
    destruct (_verifyApiKey this); [discriminate|].
    destruct (negb (truthy_opt (p_prompt params))); [discriminate|].
    destruct (validateVideoParams _ params) as [e|validation]; [discriminate|].
    destruct (negb (valid validation)); [discriminate|].
    assert (Hsend : forall w0, fst (fst (_makeRequest env penv "POST" None this w0))
                               <> OutOfFuel).
    { intros w0. unfold _makeRequest. destruct (pace env this w0) as [t0 w2].
      change (JsString.toUpperCase "POST" =? "GET") with false.
      change (JsString.toUpperCase "POST" =? "POST") with true. cbn [orb].
      destruct (await_transport env w2) as [[data|error] w3]; discriminate. }
    destruct (p_input_reference params) as [input_reference|];
      [|apply (Hsend w); rewrite Hcreate; reflexivity].
    destruct (truthy input_reference); [|apply (Hsend w); rewrite Hcreate; reflexivity].
    destruct (validateImagePath env input_reference w) as [[e|p] w0]; [discriminate|].
    apply (Hsend w0). rewrite Hcreate. reflexivity.
Qed.

End CreateAndPoll.


